(** * Lumina: the three edge handlers and the client's timestamp parsers

    A shallow embedding of
    - [supabase/functions/analyze-video/index.ts],
    - [supabase/functions/search-videos/index.ts],
    - [supabase/functions/video-qa/index.ts],
    - the colon-split timestamp parsers of the client
      ([parseTimestamp] in the chat panel, [handleTimestampClick] in the page),
    followed by the properties of the specification that are about them.

    Conventions of the model.
    - JavaScript numbers that the handlers compute with are timestamps in
      seconds, array indices, object counts and HTTP statuses: they are
      integers ([Z]); the column [videos.duration_seconds] is INTEGER.
      Relevance and confidence scores are fractions ([Q]).  Binary floating
      point rounding is not modelled: the integers stand for the numbers a
      double holds exactly (below 2^53 in magnitude), a timestamp with a
      fraction is outside the model, and a statement about a score is one
      that rounding keeps.
    - JavaScript strings are [string]s of bytes; white space and letter case
      are the ASCII ones.
    - [NaN] is [None] in an [option Z].
    - What the runtime and the services decide (the environment variable, the
      gateway's reply, [JSON.parse], [Math.random], whether a database call
      reports an error) is a field of the world a handler runs in; a world is
      what one run meets, and a second run has a world of its own.  The
      prompts are not built: a statement about a handler holds for whatever
      the gateway answers.
    - [JSON.parse] is read at the shape the prompt asks for (objects whose
      fields may be missing); a request body is read at the shape the client
      sends (fields that are strings, or missing). *)

From Stdlib Require Import ZArith QArith Ascii String List Sorted Lia.
From Stdlib Require Import DecimalString DecimalZ DecimalPos.
From stdpp Require Import base option list strings gmap.

Close Scope Q_scope.
Local Open Scope Z_scope.
Local Open Scope string_scope.

(** ** JavaScript strings *)

Module JS.

(** [\s] restricted to ASCII: tab, line feed, vertical tab, form feed,
    carriage return, space. *)
Definition is_space (c : ascii) : bool :=
  let n := nat_of_ascii c in
  (Nat.leb 9 n && Nat.leb n 13) || Nat.eqb n 32.

Definition lower_ascii (c : ascii) : ascii :=
  let n := nat_of_ascii c in
  if Nat.leb 65 n && Nat.leb n 90 then ascii_of_nat (n + 32) else c.

(** [s.toLowerCase()] *)
Fixpoint toLowerCase (s : string) : string :=
  match s with
  | EmptyString => EmptyString
  | String c s' => String (lower_ascii c) (toLowerCase s')
  end.

(** [s.includes(w)] *)
Fixpoint includes (s w : string) : bool :=
  if String.prefix w s then true
  else match s with
       | EmptyString => false
       | String _ s' => includes s' w
       end.

(** [s.split(sep)] for a separator of one character. *)
Fixpoint split_char (sep : ascii) (s : string) : list string :=
  match s with
  | EmptyString => [EmptyString]
  | String c s' =>
      if Ascii.eqb c sep then EmptyString :: split_char sep s'
      else match split_char sep s' with
           | w :: ws => String c w :: ws
           | [] => [String c EmptyString]
           end
  end.

(** [s.split(/\s+/)]: a maximal run of white space is one separator; a run at
    either end leaves an empty word there. *)
Fixpoint split_spaces (s : string) : list string :=
  match s with
  | EmptyString => [EmptyString]
  | String c s' =>
      if is_space c then
        match s' with
        | String c' _ =>
            if is_space c' then split_spaces s'
            else EmptyString :: split_spaces s'
        | EmptyString => EmptyString :: split_spaces s'
        end
      else match split_spaces s' with
           | w :: ws => String c w :: ws
           | [] => [String c EmptyString]
           end
  end.

Fixpoint trimStart (s : string) : string :=
  match s with
  | String c s' => if is_space c then trimStart s' else s
  | EmptyString => EmptyString
  end.

(** [trimEnd] keeps a character when it is not white space or when something
    that is kept follows it. *)
Fixpoint trimEnd (s : string) : string :=
  match s with
  | EmptyString => EmptyString
  | String c s' =>
      match trimEnd s' with
      | EmptyString => if is_space c then EmptyString else String c EmptyString
      | t => String c t
      end
  end.

(** [s.trim()] *)
Definition trim (s : string) : string := trimEnd (trimStart s).

(** [s.padStart(n, "0")] *)
Definition padStart0 (n : nat) (s : string) : string :=
  String.concat "" (repeat "0" (n - String.length s)) ++ s.

(** [n.toString()] of an integer. *)
Definition toString (n : Z) : string := NilZero.string_of_int (Z.to_int n).

(** [Number(s)] on the integer literals: white space around the literal is
    dropped, the empty string is [0], an optional sign and decimal digits give
    their value; every other string is [NaN] here (fractions, exponents, hex
    literals and [Infinity] are outside the integer model). *)
Definition Number (s : string) : option Z :=
  match trim s with
  | EmptyString => Some 0
  | String "+" t =>
      match t with
      | String "-" _ => None
      | _ => Z.of_int <$> NilZero.int_of_string t
      end
  | t => Z.of_int <$> NilZero.int_of_string t
  end.

(** The match of [/<o>[\s\S]*<c>/] for two delimiter characters: from the first
    [o] to the last [c] after it, [None] when there is no such pair. *)
Fixpoint upto_last (c : ascii) (s : string) : option string :=
  match s with
  | EmptyString => None
  | String a s' =>
      match upto_last c s' with
      | Some t => Some (String a t)
      | None => if Ascii.eqb a c then Some (String a EmptyString) else None
      end
  end.

Fixpoint match_delimited (o c : ascii) (s : string) : option string :=
  match s with
  | EmptyString => None
  | String a s' =>
      if Ascii.eqb a o then String a <$> upto_last c s'
      else match_delimited o c s'
  end.

(** [x || d] on a string that may be absent: [undefined], [null] and [""] are
    falsy. *)
Definition or_str (x : option string) (d : string) : string :=
  match x with
  | Some EmptyString | None => d
  | Some s => s
  end.

(** [x || null] *)
Definition or_null (x : option string) : option string :=
  match x with
  | Some EmptyString | None => None
  | Some s => Some s
  end.

(** [x || d] on a number that may be absent: [undefined], [null] and [0] are
    falsy. *)
Definition or_num (x : option Z) (d : Z) : Z :=
  match x with
  | Some 0 | None => d
  | Some n => n
  end.

(** [!x] on a string that may be absent. *)
Definition falsy_str (x : option string) : bool :=
  match x with
  | Some EmptyString | None => true
  | Some _ => false
  end.

(** [a % b], the remainder with the sign of the dividend. *)
Definition rem (a b : Z) : Z := Z.rem a b.

(** [Math.floor(a / b)] for integers [a], [b]. *)
Definition floor_div (a b : Z) : Z := a / b.

(** [Math.floor(a)] of an integer. *)
Definition Math_floor (a : Z) : Z := a.

(** [Math.max(...l)]; [None] is [-Infinity], the maximum of no arguments. *)
Definition Math_max (l : list Z) : option Z :=
  match l with
  | [] => None
  | x :: l' => Some (fold_left Z.max l' x)
  end.

End JS.

(** ** Timestamps *)

(** [formatTimestamp] of analyze-video, on a whole number of seconds (of
    magnitude below 2^53, where the doubles of the source are exact). *)
Definition formatTimestamp (seconds : Z) : string :=
  let hrs := JS.floor_div seconds 3600 in
  let mins := JS.floor_div (JS.rem seconds 3600) 60 in
  let secs := JS.Math_floor (JS.rem seconds 60) in
  JS.padStart0 2 (JS.toString hrs) ++ ":" ++
  JS.padStart0 2 (JS.toString mins) ++ ":" ++
  JS.padStart0 2 (JS.toString secs).

(** [ts.split(":").map(Number)] and the arithmetic both client parsers share;
    a [NaN] part makes the sum [NaN]. *)
Definition colon_parts (ts : string) : list (option Z) :=
  map JS.Number (JS.split_char ":" ts).

Definition nan_add (a b : option Z) : option Z :=
  x ← a; y ← b; Some (x + y).

Definition nan_mul (a : option Z) (k : Z) : option Z :=
  x ← a; Some (x * k).

(** [parseTimestamp] of the chat panel. *)
Definition parseTimestamp (ts : string) : option Z :=
  match colon_parts ts with
  | [h; m; s] => nan_add (nan_add (nan_mul h 3600) (nan_mul m 60)) s
  | [m; s] => nan_add (nan_mul m 60) s
  | _ => Some 0
  end.

(** [handleTimestampClick] of the page: the value handed to [setSeekToTime]. *)
Definition handleTimestampClick (timestamp : string) : option Z :=
  let parts := colon_parts timestamp in
  let seconds := Some 0 in
  let seconds :=
    match parts with
    | [h; m; s] => nan_add (nan_add (nan_mul h 3600) (nan_mul m 60)) s
    | [m; s] => nan_add (nan_mul m 60) s
    | _ => seconds
    end in
  seconds.

(** ** Data model *)

Inductive VideoStatus := processing | ready | failed.

(** A row of [videos]. *)
Record Video := {
  v_id : string;
  v_title : string;
  v_filename : string;
  v_storage_path : string;
  v_duration_seconds : option Z;
  v_thumbnail_path : option string;
  v_status : VideoStatus
}.

(** A row of [video_segments]; the insert payload of analyze-video leaves
    [id] and [frame_path] to the table's defaults. *)
Record Segment := {
  s_id : option string;
  s_video_id : string;
  s_timestamp_seconds : Z;
  s_timestamp_display : string;
  s_frame_path : option string;
  s_transcript : option string;
  s_description : option string;
  s_ocr_text : option string;
  s_detected_objects : option (gmap string Z);
  s_embedding_text : option string;
  s_confidence_score : Q
}.

(** A row of [video_qa_history]. *)
Record QARecord := {
  q_video_id : string;
  q_question : string;
  q_answer : string;
  q_relevant_timestamps : list string
}.

Record DB := {
  videos : list Video;
  video_segments : list Segment;
  video_qa_history : list QARecord
}.

(** An element of the array the analysis reply parses to: an object in which
    each of the five fields the prompt asks for may be missing. *)
Record ParsedSegment := {
  p_timestamp_seconds : option Z;
  p_description : option string;
  p_ocr_text : option string;
  p_detected_objects : option (gmap string Z);
  p_transcript : option string
}.

(** An element of the array the ranking reply parses to. *)
Record Ranking := {
  index : Z;
  relevance_score : Q;
  reason : option string
}.

(** The object the question-answer reply parses to. *)
Record ParsedAnswer := {
  pa_answer : option string;
  pa_relevant_timestamps : option (list string)
}.

(** ** Requests, responses and the world *)

Inductive Payload (A : Type) :=
| BadJson (msg : string)          (* [req.json()] rejects *)
| Json (fields : A).
Arguments BadJson {A} msg.
Arguments Json {A} fields.

Record Request (A : Type) := {
  method : string;
  payload : Payload A
}.
Arguments method {A} _.
Arguments payload {A} _.

Record AnalyzeBody := {
  a_videoId : option string;
  a_videoUrl : option string;
  a_title : option string
}.

Record SearchFilters := {
  objectName : option string;
  minCount : option Z
}.

Record SearchBody := {
  sb_query : option string;
  sb_videoId : option string;
  sb_filters : option SearchFilters
}.

Record QABody := {
  qa_question : option string;
  qa_videoId : option string
}.

(** An entry of [results] in the search response. *)
Record SearchResult := {
  r_id : option string;
  r_video_id : string;
  r_video_title : string;
  r_video_path : string;
  r_timestamp_seconds : Z;
  r_timestamp_display : string;
  r_description : option string;
  r_transcript : option string;
  r_ocr_text : option string;
  r_detected_objects : option (gmap string Z);
  r_relevance_score : Q;
  r_relevance_reason : option string
}.

Inductive Body :=
| BodyNull                                          (* the preflight answer *)
| BodyError (error : string)                        (* [{ error }] *)
| BodyAnalyzed (segmentsCreated : nat)              (* [{ success: true, segmentsCreated }] *)
| BodyNoContent                                     (* [{ results: [], message }] *)
| BodyResults (results : list SearchResult)         (* [{ results }] *)
| BodyAnswer (answer : string) (relevant_timestamps : list string).

Record Response := {
  status : Z;
  body : Body
}.

(** The gateway's answer to the one [fetch] a handler makes. *)
Inductive GatewayBody :=
| GwMalformed (msg : string)        (* [response.json()] rejects *)
| GwContent (content : option string).
    (* [aiResult.choices?.[0]?.message?.content]; [None] when it is missing *)

Inductive Gateway :=
| GwUnreachable (msg : string)      (* [fetch] rejects *)
| GwResponse (gw_status : Z) (gw_body : GatewayBody).

(** [response.ok] *)
Definition gw_ok (gw_status : Z) : bool :=
  (200 <=? gw_status)%Z && (gw_status <=? 299)%Z.

Inductive DbCall :=
| InsertSegments | UpdateVideo | SelectSegments | SelectVideo
| SelectVideoSegments | InsertHistory.

(** Everything one run of a handler reads that its code does not decide.
    [JSON_parse_*] is [JSON.parse] read at the type the handler uses the
    result at, [None] when it throws; [Math_random w i] is the draw of the
    run for the record at index [i].  Another run has another world: its
    gateway reply and its draws are its own. *)
Record World := {
  LOVABLE_API_KEY : option string;
  gateway : Gateway;
  JSON_parse_segments : string -> option (list ParsedSegment);
  JSON_parse_rankings : string -> option (list Ranking);
  JSON_parse_answer : string -> option ParsedAnswer;
  Math_random : nat -> Q;
  db_error : DbCall -> option string
}.

(** ** Control flow: [await], [throw], early [return] *)

Inductive step (A : Type) :=
| Next (a : A)
| Reply (r : Response)
| Throw (msg : string).
Arguments Next {A} a.
Arguments Reply {A} r.
Arguments Throw {A} msg.

Definition Eff (A : Type) : Type := DB -> step A * DB.

#[global] Instance Eff_ret : MRet Eff := fun A a db => (Next a, db).

#[global] Instance Eff_bind : MBind Eff := fun A B f m db =>
  match m db with
  | (Next a, db') => f a db'
  | (Reply r, db') => (Reply r, db')
  | (Throw msg, db') => (Throw msg, db')
  end.

Definition throw {A} (msg : string) : Eff A := fun db => (Throw msg, db).

Definition reply {A} (r : Response) : Eff A := fun db => (Reply r, db).

Definition throw_if (c : bool) (msg : string) : Eff unit :=
  if c then throw msg else mret tt.

(** A value the code dereferences: [None] is the [TypeError] of reading a
    property of [undefined]. *)
Definition deref {A} (x : option A) (prop : string) : Eff A :=
  match x with
  | Some a => mret a
  | None =>
      throw ("Cannot read properties of undefined (reading '" ++ prop ++ "')")
  end.

Definition json_response (st : Z) (b : Body) : Response :=
  {| status := st; body := b |}.

(** The handler's frame: the preflight answer, [req.json()], the [try] body
    and the [catch] that turns every throw into a 500. *)
Definition serve {A} (handler : A -> Eff Response) (req : Request A)
  : DB -> Response * DB := fun db =>
  if String.eqb (method req) "OPTIONS" then (json_response 200 BodyNull, db)
  else
    let run :=
      match payload req with
      | BadJson msg => throw msg
      | Json fields => handler fields
      end in
    match run db with
    | (Next r, db') => (r, db')
    | (Reply r, db') => (r, db')
    | (Throw msg, db') => (json_response 500 (BodyError msg), db')
    end.

(** The [fetch] and the status checks that follow it.  analyze-video throws
    on every failure; search-videos and video-qa answer 429 and 402
    themselves. *)
Definition gateway_content (w : World) (answered : bool) : Eff (option string) :=
  match gateway w with
  | GwUnreachable msg => throw msg
  | GwResponse st b =>
      if negb (gw_ok st) then
        if (st =? 429)%Z then
          if answered
          then reply (json_response 429 (BodyError "Rate limited. Please try again later."))
          else throw "Rate limited. Please try again later."
        else if (st =? 402)%Z then
          if answered
          then reply (json_response 402 (BodyError "Payment required. Please add funds."))
          else throw "Payment required. Please add funds to your workspace."
        else throw ("AI gateway error: " ++ JS.toString st)
      else
        match b with
        | GwMalformed msg => throw msg
        | GwContent content => mret content
        end
  end.

(** ** The database calls *)

Definition db_call (w : World) (c : DbCall) (effect : DB -> DB) : Eff unit :=
  fun db =>
    match db_error w c with
    | Some msg => (Throw msg, db)
    | None => (Next tt, effect db)
    end.

Definition insert_segments (records : list Segment) (db : DB) : DB :=
  {| videos := videos db;
     video_segments := video_segments db ++ records;
     video_qa_history := video_qa_history db |}.

Definition update_video (videoId : string) (st : VideoStatus)
    (duration : option Z) (db : DB) : DB :=
  {| videos :=
       map (fun v =>
              if String.eqb (v_id v) videoId then
                {| v_id := v_id v; v_title := v_title v;
                   v_filename := v_filename v;
                   v_storage_path := v_storage_path v;
                   v_duration_seconds := duration;
                   v_thumbnail_path := v_thumbnail_path v;
                   v_status := st |}
              else v) (videos db);
     video_segments := video_segments db;
     video_qa_history := video_qa_history db |}.

Definition insert_history (r : QARecord) (db : DB) : DB :=
  {| videos := videos db;
     video_segments := video_segments db;
     video_qa_history := video_qa_history db ++ [r] |}.

Definition db_read {A} (w : World) (c : DbCall) (query : DB -> A) : Eff A :=
  fun db =>
    match db_error w c with
    | Some msg => (Throw msg, db)
    | None => (Next (query db), db)
    end.

(** ** analyze-video *)

Definition fallback_segments (title : option string) : list ParsedSegment :=
  [ {| p_timestamp_seconds := Some 0;
       p_description := Some "Video introduction and opening sequence";
       p_ocr_text := title;
       p_detected_objects := Some {[ "person" := 1 ]};
       p_transcript := Some "Welcome to this video content" |};
    {| p_timestamp_seconds := Some 30;
       p_description := Some "Main content begins with key information";
       p_ocr_text := Some "";
       p_detected_objects := Some {[ "text_overlay" := 1 ]};
       p_transcript := Some "Let me explain the main topic" |};
    {| p_timestamp_seconds := Some 60;
       p_description := Some "Detailed explanation and demonstration";
       p_ocr_text := Some "";
       p_detected_objects := Some {[ "person" := 1 ]};
       p_transcript := Some "Here you can see how this works" |};
    {| p_timestamp_seconds := Some 120;
       p_description := Some "Summary and conclusion";
       p_ocr_text := Some "Summary";
       p_detected_objects := Some {[ "text_overlay" := 1 ]};
       p_transcript := Some "To wrap up, we covered the main points" |} ].

(** The inner [try]: the array between the first "[" and the last "]" of the
    reply, parsed.  [None] is a throw inside the [try]: [.match] of a missing
    content, "No JSON array found in response", or [JSON.parse]. *)
Definition extract_segments (w : World) (analysisContent : option string)
  : option (list ParsedSegment) :=
  content ← analysisContent;
  jsonMatch ← JS.match_delimited "[" "]" content;
  JSON_parse_segments w jsonMatch.

(** The value of [segments] after the inner [try]/[catch]. *)
Definition parse_segments (w : World) (title : option string)
    (analysisContent : option string) : list ParsedSegment :=
  match extract_segments w analysisContent with
  | Some segments => segments
  | None => fallback_segments title
  end.

(** [segmentRecords]: the rows of one run.  The timestamps are the whole
    numbers of the reply; the confidence score is the exact value of
    [0.85 + Math.random() * 0.15] on the run's own draws, which the source
    rounds to a double (the rounding is monotone, and can give 1). *)
Definition segmentRecords (w : World) (videoId : string)
    (segments : list ParsedSegment) : list Segment :=
  imap (fun index seg =>
    {| s_id := None;
       s_video_id := videoId;
       s_timestamp_seconds :=
         JS.or_num (p_timestamp_seconds seg) (Z.of_nat index * 30);
       s_timestamp_display :=
         formatTimestamp
           (JS.or_num (p_timestamp_seconds seg) (Z.of_nat index * 30));
       s_frame_path := None;
       s_transcript := JS.or_null (p_transcript seg);
       s_description := Some (JS.or_str (p_description seg) "Video segment");
       s_ocr_text := JS.or_null (p_ocr_text seg);
       s_detected_objects := Some (default ∅ (p_detected_objects seg));
       s_embedding_text :=
         Some (JS.trim (JS.or_str (p_description seg) "" ++ " " ++
                        JS.or_str (p_transcript seg) "" ++ " " ++
                        JS.or_str (p_ocr_text seg) ""));
       s_confidence_score :=
         ((85 # 100) + Math_random w index * (15 # 100))%Q |}) segments.

(** [Math.max(...segments.map(s => s.timestamp_seconds || 0)) + 30]; [None] is
    [-Infinity], which the update writes as NULL. *)
Definition duration_seconds (segments : list ParsedSegment) : option Z :=
  (fun m => m + 30) <$>
    JS.Math_max (map (fun s => JS.or_num (p_timestamp_seconds s) 0) segments).

Definition analyze_video (w : World) (b : AnalyzeBody) : Eff Response :=
  match JS.or_null (a_videoId b), JS.or_null (a_videoUrl b) with
  | Some videoId, Some _ =>
      throw_if (JS.falsy_str (LOVABLE_API_KEY w))
        "LOVABLE_API_KEY is not configured";;
      analysisContent ← gateway_content w false;
      let segments := parse_segments w (a_title b) analysisContent in
      let records := segmentRecords w videoId segments in
      db_call w InsertSegments (insert_segments records);;
      db_call w UpdateVideo
        (update_video videoId ready (duration_seconds segments));;
      mret (json_response 200 (BodyAnalyzed (length records)))
  | _, _ => throw "Missing videoId or videoUrl"
  end.

Definition serve_analyze_video (w : World) := serve (analyze_video w).

(** ** search-videos *)

(** A row of the select: the segment with its video ([videos!inner(...)]). *)
Record JoinedSegment := {
  seg : Segment;
  seg_videos : Video
}.

Definition is_ready (v : Video) : bool :=
  match v_status v with ready => true | _ => false end.

(** Segments of ready videos, of one video when [videoId] is given. *)
Definition select_segments (videoId : option string) (db : DB)
  : list JoinedSegment :=
  flat_map (fun s =>
    match List.find (fun v => String.eqb (v_id v) (s_video_id s)) (videos db) with
    | Some v =>
        if is_ready v &&
           match JS.or_null videoId with
           | Some id => String.eqb (s_video_id s) id
           | None => true
           end
        then [ {| seg := s; seg_videos := v |} ]
        else []
    | None => []
    end) (video_segments db).

Definition Qgtb (a b : Q) : bool := negb (Qle_bool a b).

(** The score of one segment in the [catch] of the ranking parse. *)
Definition keyword_score (query : string) (s : Segment) : Q :=
  let text :=
    JS.toLowerCase (JS.or_str (s_description s) "" ++ " " ++
                    JS.or_str (s_transcript s) "" ++ " " ++
                    JS.or_str (s_ocr_text s) "") in
  let queryLower := JS.toLowerCase query in
  let words := JS.split_spaces queryLower in
  let matches := length (List.filter (fun w => JS.includes text w) words) in
  (inject_Z (Z.of_nat matches) / inject_Z (Z.of_nat (length words)))%Q.

(** [.sort((a, b) => b.relevance_score - a.relevance_score)]: the sort is
    stable, an entry goes before the first one that is not strictly greater. *)
Fixpoint insert_desc (r : Ranking) (l : list Ranking) : list Ranking :=
  match l with
  | [] => [r]
  | r' :: l' =>
      if Qgtb (relevance_score r') (relevance_score r)
      then r' :: insert_desc r l'
      else r :: l
  end.

Definition sort_desc (l : list Ranking) : list Ranking :=
  foldr insert_desc [] l.

Definition fallback_rankings (query : string) (segments : list JoinedSegment)
  : list Ranking :=
  take 10
    (sort_desc
       (List.filter (fun r => Qgtb (relevance_score r) (3 # 10))
          (imap (fun idx s =>
                   {| index := Z.of_nat idx;
                      relevance_score := keyword_score query (seg s);
                      reason := Some "Keyword matching fallback" |})
                segments))).

(** The value of [rankings] after the [try]/[catch]: the [catch] runs when
    [.match] or [JSON.parse] throws; a reply without an array leaves the
    initial [[]]. *)
Definition parse_rankings (w : World) (query : string)
    (segments : list JoinedSegment) (rankingContent : option string)
  : list Ranking :=
  match rankingContent with
  | None => fallback_rankings query segments
  | Some content =>
      match JS.match_delimited "[" "]" content with
      | Some jsonMatch =>
          match JSON_parse_rankings w jsonMatch with
          | Some rankings => rankings
          | None => fallback_rankings query segments
          end
      | None => []
      end
  end.

(** [segments[rank.index]] *)
Definition segment_at (segments : list JoinedSegment) (i : Z)
  : option JoinedSegment :=
  if (0 <=? i)%Z then segments !! Z.to_nat i else None.

(** The properties every object inherits from [Object.prototype]. *)
Definition Object_prototype : list string :=
  [ "constructor"; "hasOwnProperty"; "isPrototypeOf"; "propertyIsEnumerable";
    "toLocaleString"; "toString"; "valueOf"; "__proto__";
    "__defineGetter__"; "__defineSetter__";
    "__lookupGetter__"; "__lookupSetter__" ].

Definition inherited (name : string) : bool :=
  existsb (String.eqb name) Object_prototype.

(** [(seg.detected_objects || {})[name] || 0].  The lookup reads the object's
    own key first and the prototype after it: the count is the number under
    the key, [0] when the name is found nowhere, and [None] when the name is
    found on the prototype only, where the value is a function (the prototype
    itself for [__proto__]): truthy, and not a number. *)
Definition detected_count (name : string) (s : Segment) : option Z :=
  let objects := default ∅ (s_detected_objects s) in
  match objects !! name with
  | Some n => Some (JS.or_num (Some n) 0)
  | None => if inherited name then None else Some 0
  end.

(** The callback of the object filter on a segment that exists:
    [count >= (filters.minCount || 1)], which is false when [count] is not a
    number. *)
Definition object_count_ok (name : string) (min : option Z) (s : Segment)
  : bool :=
  match detected_count name s with
  | Some count => (JS.or_num min 1 <=? count)%Z
  | None => false
  end.

(** [rankings.filter(...)]; [None] when an index has no segment. *)
Fixpoint filter_by_object (name : string) (min : option Z)
    (segments : list JoinedSegment) (rankings : list Ranking)
  : option (list Ranking) :=
  match rankings with
  | [] => Some []
  | rank :: rest =>
      s ← segment_at segments (index rank);
      rest' ← filter_by_object name min segments rest;
      Some (if object_count_ok name min (seg s) then rank :: rest' else rest')
  end.

Definition apply_object_filter (filters : option SearchFilters)
    (segments : list JoinedSegment) (rankings : list Ranking)
  : Eff (list Ranking) :=
  match filters ≫= (fun f => JS.or_null (objectName f)) with
  | Some name =>
      deref (filter_by_object name (filters ≫= minCount) segments rankings)
        "detected_objects"
  | None => mret rankings
  end.

Definition build_result (s : JoinedSegment) (rank : Ranking) : SearchResult :=
  {| r_id := s_id (seg s);
     r_video_id := s_video_id (seg s);
     r_video_title := v_title (seg_videos s);
     r_video_path := v_storage_path (seg_videos s);
     r_timestamp_seconds := s_timestamp_seconds (seg s);
     r_timestamp_display := s_timestamp_display (seg s);
     r_description := s_description (seg s);
     r_transcript := s_transcript (seg s);
     r_ocr_text := s_ocr_text (seg s);
     r_detected_objects := s_detected_objects (seg s);
     r_relevance_score := relevance_score rank;
     r_relevance_reason := reason rank |}.

(** [rankings.map(...)]; [None] when an index has no segment. *)
Definition build_results (segments : list JoinedSegment)
    (rankings : list Ranking) : option (list SearchResult) :=
  mapM (fun rank => s ← segment_at segments (index rank);
                    Some (build_result s rank)) rankings.

Definition search_videos (w : World) (b : SearchBody) : Eff Response :=
  match JS.or_null (sb_query b) with
  | Some query =>
      throw_if (JS.falsy_str (LOVABLE_API_KEY w))
        "LOVABLE_API_KEY is not configured";;
      segments ← db_read w SelectSegments (select_segments (sb_videoId b));
      match segments with
      | [] => reply (json_response 200 BodyNoContent)
      | _ =>
          rankingContent ← gateway_content w true;
          let rankings := parse_rankings w query segments rankingContent in
          rankings ← apply_object_filter (sb_filters b) segments rankings;
          results ← deref (build_results segments rankings) "id";
          mret (json_response 200 (BodyResults results))
      end
  | None => throw "Missing search query"
  end.

Definition serve_search_videos (w : World) := serve (search_videos w).

(** ** video-qa *)

(** [.from("videos").select("*").eq("id", videoId).single()], and the check
    that follows: anything but exactly one row is "Video not found". *)
Definition select_video (w : World) (videoId : string) : Eff Video :=
  fun db =>
    match db_error w SelectVideo,
          List.filter (fun v => String.eqb (v_id v) videoId) (videos db) with
    | None, [video] => (Next video, db)
    | _, _ => (Throw "Video not found", db)
    end.

(** The structured part of the reply: [answer] and [relevantTimestamps] after
    the [try]/[catch]. *)
Definition parse_answer (w : World) (content : string) : string * list string :=
  match JS.match_delimited "{" "}" content with
  | Some jsonMatch =>
      match JSON_parse_answer w jsonMatch with
      | Some parsed =>
          (JS.or_str (pa_answer parsed) content,
           default [] (pa_relevant_timestamps parsed))
      | None => (content, [])
      end
  | None => (content, [])
  end.

(** The history insert: its error is logged and dropped. *)
Definition save_history (w : World) (r : QARecord) : Eff unit :=
  fun db =>
    match db_error w InsertHistory with
    | Some _ => (Next tt, db)
    | None => (Next tt, insert_history r db)
    end.

(** The handler.  The video and its segments are read for the prompt only;
    what matters to the run is whether the two selects fail. *)
Definition video_qa (w : World) (b : QABody) : Eff Response :=
  match JS.or_null (qa_question b), JS.or_null (qa_videoId b) with
  | Some question, Some videoId =>
      throw_if (JS.falsy_str (LOVABLE_API_KEY w))
        "LOVABLE_API_KEY is not configured";;
      video ← select_video w videoId;
      segments ← db_read w SelectVideoSegments
        (fun db => List.filter (fun s => String.eqb (s_video_id s) videoId)
                     (video_segments db));
      reply_content ← gateway_content w true;
      let content := JS.or_str reply_content "" in
      let '(answer, relevantTimestamps) := parse_answer w content in
      save_history w
        {| q_video_id := videoId; q_question := question;
           q_answer := answer;
           q_relevant_timestamps := relevantTimestamps |};;
      mret (json_response 200 (BodyAnswer answer relevantTimestamps))
  | _, _ => throw "Missing question or videoId"
  end.

Definition serve_video_qa (w : World) := serve (video_qa w).

(** ** Predicates of the statements and proofs *)

(** [c] occurs in [s]. *)
Fixpoint has_char (c : ascii) (s : string) : bool :=
  match s with
  | EmptyString => false
  | String a s' => Ascii.eqb a c || has_char c s'
  end.

(** One field of [formatTimestamp]. *)
Definition pad2 (n : Z) : string := JS.padStart0 2 (JS.toString n).

(** The field of [n] has no colon and [Number] reads it back as [n]. *)
Definition two_digit_ok (n : Z) : bool :=
  negb (has_char ":" (pad2 n)) &&
  match JS.Number (pad2 n) with
  | Some m => (m =? n)%Z
  | None => false
  end.

(** [a] does not score below [b]: the order of a list sorted by score
    descending. *)
Definition score_ge (a b : Ranking) : Prop :=
  (relevance_score b <= relevance_score a)%Q.

(** ** Sample worlds, requests and databases *)

(** [s] between double quotes. *)
Definition quoted (s : string) : string :=
  String (ascii_of_nat 34) (s ++ String (ascii_of_nat 34) EmptyString).

(** An uploaded video that has not been analysed. *)

Definition sample_video : Video :=
  {| v_id := "v1"; v_title := "Demo"; v_filename := "demo.mp4";
     v_storage_path := "uploads/demo.mp4"; v_duration_seconds := None;
     v_thumbnail_path := None; v_status := processing |}.

(** The database after the upload. *)
Definition sample_db : DB :=
  {| videos := [sample_video]; video_segments := []; video_qa_history := [] |}.

(** The request the client sends after the upload. *)
Definition analyze_request : Request AnalyzeBody :=
  {| method := "POST";
     payload := Json {| a_videoId := Some "v1";
                        a_videoUrl := Some "https://cdn.example/demo.mp4";
                        a_title := Some "Demo" |} |}.

(** A world in which every database call succeeds and [JSON.parse] is given by
    tables of the texts it is called on in that world ([None] elsewhere). *)
Definition world_with (key : option string) (gw : Gateway)
    (segments_of : list (string * list ParsedSegment))
    (rankings_of : list (string * list Ranking))
    (answer_of : list (string * ParsedAnswer)) : World :=
  let table {A} (t : list (string * A)) (s : string) : option A :=
    snd <$> List.find (fun e => String.eqb (fst e) s) t in
  {| LOVABLE_API_KEY := key;
     gateway := gw;
     JSON_parse_segments := table segments_of;
     JSON_parse_rankings := table rankings_of;
     JSON_parse_answer := table answer_of;
     Math_random := fun _ => (1 # 2)%Q;
     db_error := fun _ => None |}.

(** The gateway answers in prose. *)
Definition prose_world : World :=
  world_with (Some "secret")
    (GwResponse 200 (GwContent (Some "Sorry, I cannot analyse this video.")))
    [] [] [].

(** The reply [[{"description":"Intro"},{"description":"Outro"}]]: two
    segments, neither with a [timestamp_seconds]. *)
Definition untimed_reply : string :=
  "[{" ++ quoted "description" ++ ":" ++ quoted "Intro" ++ "},{" ++
  quoted "description" ++ ":" ++ quoted "Outro" ++ "}]".

(** What [untimed_reply] parses to. *)
Definition untimed_segments : list ParsedSegment :=
  [ {| p_timestamp_seconds := None; p_description := Some "Intro";
       p_ocr_text := None; p_detected_objects := None;
       p_transcript := None |};
    {| p_timestamp_seconds := None; p_description := Some "Outro";
       p_ocr_text := None; p_detected_objects := None;
       p_transcript := None |} ].

(** The gateway answers [untimed_reply]. *)
Definition untimed_world : World :=
  world_with (Some "secret")
    (GwResponse 200 (GwContent (Some untimed_reply)))
    [(untimed_reply, untimed_segments)] [] [].

(** The reply [[{"timestamp_seconds":0},{"timestamp_seconds":0}]]. *)
Definition zero_timed_reply : string :=
  "[{" ++ quoted "timestamp_seconds" ++ ":0},{" ++
  quoted "timestamp_seconds" ++ ":0}]".

(** An element of what [zero_timed_reply] parses to. *)
Definition zero_timed : ParsedSegment :=
  {| p_timestamp_seconds := Some 0; p_description := None;
     p_ocr_text := None; p_detected_objects := None;
     p_transcript := None |}.

(** The gateway answers [zero_timed_reply]. *)
Definition zero_timed_world : World :=
  world_with (Some "secret")
    (GwResponse 200 (GwContent (Some zero_timed_reply)))
    [(zero_timed_reply, [zero_timed; zero_timed])] [] [].

(** LOVABLE_API_KEY is not set. *)
Definition keyless_world : World :=
  world_with None
    (GwResponse 200 (GwContent (Some "Sorry, I cannot analyse this video.")))
    [] [] [].

(** A body with a title only. *)
Definition untargeted_request : Request AnalyzeBody :=
  {| method := "POST";
     payload := Json {| a_videoId := None; a_videoUrl := None;
                        a_title := Some "Demo" |} |}.

(** A library with one ready video and four analysed segments. *)
Definition ready_video : Video :=
  {| v_id := "v1"; v_title := "Demo"; v_filename := "demo.mp4";
     v_storage_path := "uploads/demo.mp4"; v_duration_seconds := Some 90;
     v_thumbnail_path := None; v_status := ready |}.

(** A row of [video_segments] of that video. *)
Definition stored_segment (id : string) (t : Z) (description : string)
    (objects : gmap string Z) : Segment :=
  {| s_id := Some id; s_video_id := "v1"; s_timestamp_seconds := t;
     s_timestamp_display := formatTimestamp t; s_frame_path := None;
     s_transcript := None; s_description := Some description;
     s_ocr_text := None; s_detected_objects := Some objects;
     s_embedding_text := Some description;
     s_confidence_score := (9 # 10)%Q |}.

Definition street_segment : Segment :=
  stored_segment "s1" 0 "A person walks a dog" {[ "person" := 1; "dog" := 1 ]}.

Definition junction_segment : Segment :=
  stored_segment "s2" 30 "Two cars wait at a junction" {[ "car" := 2 ]}.

Definition parking_segment : Segment :=
  stored_segment "s3" 60 "A parked car" {[ "car" := 1 ]}.

Definition empty_segment : Segment :=
  stored_segment "s4" 90 "An empty road" ∅.

Definition library_db : DB :=
  {| videos := [ready_video];
     video_segments :=
       [street_segment; junction_segment; parking_segment; empty_segment];
     video_qa_history := [] |}.

(** A search over all videos. *)
Definition search_request (query : string) (filters : option SearchFilters)
  : Request SearchBody :=
  {| method := "POST";
     payload := Json {| sb_query := Some query; sb_videoId := None;
                        sb_filters := filters |} |}.

(** The gateway answers 503. *)
Definition overloaded_world : World :=
  world_with (Some "secret") (GwResponse 503 (GwContent None)) [] [] [].

(** The gateway answers the ranking prompt in prose. *)
Definition unranked_world : World :=
  world_with (Some "secret")
    (GwResponse 200 (GwContent (Some "I could not rank these segments.")))
    [] [] [].


(** A ranking of the segment at index [i]. *)
Definition rank_of (i : Z) : Ranking :=
  {| index := i; relevance_score := (9 # 10)%Q; reason := None |}.

(** A question about the ready video. *)
Definition qa_request : Request QABody :=
  {| method := "POST";
     payload := Json {| qa_question := Some "What happens in the video?";
                        qa_videoId := Some "v1" |} |}.

(** The gateway answers the question in prose. *)
Definition chatty_world : World :=
  world_with (Some "secret")
    (GwResponse 200 (GwContent (Some "A person walks a dog at 00:00:00.")))
    [] [] [].

(** ** Further definitions: the client, predicates on runs, samples *)

(** A decimal digit. *)
Definition is_digit (c : ascii) : bool :=
  let n := nat_of_ascii c in Nat.leb 48 n && Nat.leb n 57.

(** A string of decimal digits. *)
Fixpoint all_digits (s : string) : bool :=
  match s with
  | EmptyString => true
  | String c s' => is_digit c && all_digits s'
  end.

(** [formatDuration] of the video card; [formatTime] of the player is its
    second part. *)
Definition formatDuration (seconds : option Z) : string :=
  match seconds with
  | Some 0 | None => "--:--"
  | Some seconds =>
      let mins := JS.floor_div seconds 60 in
      let secs := JS.Math_floor (JS.rem seconds 60) in
      JS.toString mins ++ ":" ++ JS.padStart0 2 (JS.toString secs)
  end.

(** ** The client: file names, the timeline *)

(** A character the storage file name keeps: [[a-zA-Z0-9.-]]. *)
Definition is_name_char (c : ascii) : bool :=
  let n := nat_of_ascii c in
  (Nat.leb 97 n && Nat.leb n 122) || (Nat.leb 65 n && Nat.leb n 90) ||
  (Nat.leb 48 n && Nat.leb n 57) || Nat.eqb n 46 || Nat.eqb n 45.

(** [name.replace(/[^a-zA-Z0-9.-]/g, "_")]; a character outside ASCII is
    several bytes here, and each of them becomes an underscore. *)
Fixpoint sanitize_name (name : string) : string :=
  match name with
  | EmptyString => EmptyString
  | String c s => String (if is_name_char c then c else "_") (sanitize_name s)
  end.

(** The [filename] and [storagePath] of [uploadVideo], with [now] for
    [Date.now()]. *)
Definition upload_filename (now : Z) (name : string) : string :=
  JS.toString now ++ "-" ++ sanitize_name name.

Definition upload_storagePath (now : Z) (name : string) : string :=
  "uploads/" ++ upload_filename now name.

(** [maxTime] of the timeline; [None] is the early return on no segments. *)
Definition Timeline_maxTime (segments : list Segment) : option Z :=
  match segments with
  | [] => None
  | _ => (fun m => JS.or_num (Some m) 1) <$>
           JS.Math_max (map s_timestamp_seconds segments)
  end.

(** The [left] of a segment's marker, in percent:
    [(Number(seg.timestamp_seconds) / maxTime) * 100]. *)
Definition marker_left (maxTime : Z) (s : Segment) : Q :=
  (inject_Z (s_timestamp_seconds s) / inject_Z maxTime * inject_Z 100)%Q.

(** Every character of [s] satisfies [P]. *)
Fixpoint all_chars (P : ascii -> bool) (s : string) : bool :=
  match s with
  | EmptyString => true
  | String c s' => P c && all_chars P s'
  end.

(** A character of a stored file name. *)
Definition is_stored_char (c : ascii) : bool :=
  is_name_char c || Ascii.eqb c "_".

(** ** Predicates on runs *)

(** [m] leaves the database as it finds it. *)
Definition read_only {A} (m : Eff A) : Prop :=
  forall db, snd (m db) = db.

(** Every response [m] gives, by an early [return] or as its value, has a
    status in [P]. *)
Definition replies_in {A} (P : Z -> Prop) (m : Eff A) : Prop :=
  forall db r db', m db = (Reply r, db') -> P (status r).

Definition returns_in (P : Z -> Prop) (m : Eff Response) : Prop :=
  forall db r db', m db = (Next r, db') -> P (status r).

(** The statuses analyze-video answers with. *)
Definition analyze_statuses (st : Z) : Prop := st = 200 \/ st = 500.

(** The statuses search-videos and video-qa answer with. *)
Definition gateway_statuses (st : Z) : Prop :=
  st = 200 \/ st = 402 \/ st = 429 \/ st = 500.

(** ** More sample worlds *)

Definition DbCall_eqb (a b : DbCall) : bool :=
  match a, b with
  | InsertSegments, InsertSegments | UpdateVideo, UpdateVideo
  | SelectSegments, SelectSegments | SelectVideo, SelectVideo
  | SelectVideoSegments, SelectVideoSegments
  | InsertHistory, InsertHistory => true
  | _, _ => false
  end.

(** The world [w] with one database call refused. *)
Definition refusing (c : DbCall) (w : World) : World :=
  {| LOVABLE_API_KEY := LOVABLE_API_KEY w;
     gateway := gateway w;
     JSON_parse_segments := JSON_parse_segments w;
     JSON_parse_rankings := JSON_parse_rankings w;
     JSON_parse_answer := JSON_parse_answer w;
     Math_random := Math_random w;
     db_error := fun c' => if DbCall_eqb c c' then Some "permission denied"
                           else db_error w c' |}.

(** The gateway is out of quota. *)
Definition rate_limited_world : World :=
  world_with (Some "secret") (GwResponse 429 (GwContent None)) [] [] [].

(** The gateway answers 200 with no content. *)
Definition silent_world : World :=
  world_with (Some "secret") (GwResponse 200 (GwContent None)) [] [] [].

(** The gateway cannot be reached. *)
Definition offline_world : World :=
  world_with (Some "secret") (GwUnreachable "connection refused") [] [] [].

(** The order of the fallback list: a higher score first, and among equal
    scores the earlier segment first. *)
Definition ranks_before (a b : Ranking) : Prop :=
  (relevance_score b < relevance_score a)%Q \/
  ((relevance_score a == relevance_score b)%Q /\ index a < index b).

(** The reply [[{"index":7,"relevance_score":0.9}]]. *)
Definition stray_reply : string :=
  "[{" ++ quoted "index" ++ ":7," ++ quoted "relevance_score" ++ ":0.9}]".

(** The gateway ranks a segment that is not there. *)
Definition stray_world : World :=
  world_with (Some "secret") (GwResponse 200 (GwContent (Some stray_reply)))
    [] [(stray_reply, [rank_of 7])] [].

(** The entry of the fallback scorer for the segment at [idx]. *)
Definition keyword_ranking (query : string) (idx : nat) (s : JoinedSegment)
  : Ranking :=
  {| index := Z.of_nat idx;
     relevance_score := keyword_score query (seg s);
     reason := Some "Keyword matching fallback" |}.

(** Earlier in the list of segments. *)
Definition index_lt (a b : Ranking) : Prop := index a < index b.

(** The reply [{"answer":"A dog walks.","relevant_timestamps":[]}]. *)
Definition structured_reply : string :=
  "{" ++ quoted "answer" ++ ":" ++ quoted "A dog walks." ++ "," ++
  quoted "relevant_timestamps" ++ ":[]}".

(** The gateway answers the question with the JSON object it was asked for. *)
Definition structured_world : World :=
  world_with (Some "secret")
    (GwResponse 200 (GwContent (Some structured_reply))) [] []
    [(structured_reply,
      {| pa_answer := Some "A dog walks.";
         pa_relevant_timestamps := Some [] |})].

(** A record with its confidence score set aside. *)
Definition without_confidence (s : Segment) : Segment :=
  {| s_id := s_id s;
     s_video_id := s_video_id s;
     s_timestamp_seconds := s_timestamp_seconds s;
     s_timestamp_display := s_timestamp_display s;
     s_frame_path := s_frame_path s;
     s_transcript := s_transcript s;
     s_description := s_description s;
     s_ocr_text := s_ocr_text s;
     s_detected_objects := s_detected_objects s;
     s_embedding_text := s_embedding_text s;
     s_confidence_score := 0%Q |}.

(** The world of a later run in which the services behave as in [w] and
    [Math.random] draws anew. *)
Definition redrawn_world (w : World) (draws : nat -> Q) : World :=
  {| LOVABLE_API_KEY := LOVABLE_API_KEY w;
     gateway := gateway w;
     JSON_parse_segments := JSON_parse_segments w;
     JSON_parse_rankings := JSON_parse_rankings w;
     JSON_parse_answer := JSON_parse_answer w;
     Math_random := draws;
     db_error := db_error w |}.

(** The integers a JavaScript number holds exactly are below this bound. *)
Definition MAX_SAFE_INTEGER : Z := 2 ^ 53 - 1.

(** * Properties *)

(** ** Evaluations *)

Example formatTimestamp_3725 : formatTimestamp 3725 = "01:02:05".
Proof. reflexivity. Qed.

Example formatTimestamp_neg : formatTimestamp (-5) = "-1:-1:-5".
Proof. vm_compute. reflexivity. Qed.

Example parseTimestamp_3725 : parseTimestamp "01:02:05" = Some 3725.
Proof. vm_compute. reflexivity. Qed.

Example parseTimestamp_mmss : parseTimestamp "02:05" = Some 125.
Proof. vm_compute. reflexivity. Qed.

Example split_spaces_ex :
  JS.split_spaces " red  car " = [""; "red"; "car"; ""].
Proof. reflexivity. Qed.

Example match_delimited_ex :
  JS.match_delimited "[" "]" "x [1, [2]] y ] z" = Some "[1, [2]] y ]".
Proof. reflexivity. Qed.

(** ** The timestamp round trip *)

Section Split.
Variable sep : ascii.

Lemma split_char_nosep s :
  has_char sep s = false -> JS.split_char sep s = [s].
Proof.
  induction s as [|a s IH]; simpl; [reflexivity|].
  intros H. apply orb_false_iff in H as [Ha Hs].
  rewrite Ha, (IH Hs). reflexivity.
Qed.

Lemma split_char_app s t :
  has_char sep s = false ->
  JS.split_char sep (s ++ String sep t) = s :: JS.split_char sep t.
Proof.
  induction s as [|a s IH]; simpl.
  - intros _. rewrite Ascii.eqb_refl. reflexivity.
  - intros H. apply orb_false_iff in H as [Ha Hs].
    rewrite Ha, (IH Hs). reflexivity.
Qed.
End Split.

(** The hundred two-digit fields, checked one by one. *)
Lemma two_digit_table :
  forallb two_digit_ok (map Z.of_nat (seq 0 100)) = true.
Proof. vm_compute. reflexivity. Qed.

Lemma two_digit n :
  0 <= n < 100 ->
  has_char ":" (pad2 n) = false /\ JS.Number (pad2 n) = Some n.
Proof.
  intros Hn.
  pose proof two_digit_table as T.
  rewrite forallb_forall in T.
  specialize (T n).
  assert (Hin : In n (map Z.of_nat (seq 0 100))).
  { apply in_map_iff. exists (Z.to_nat n). split; [lia|].
    apply in_seq. lia. }
  apply T in Hin. unfold two_digit_ok in Hin.
  apply andb_true_iff in Hin as [Hc Hv].
  split.
  - now apply negb_true_iff in Hc.
  - destruct (JS.Number (pad2 n)) as [m|]; [|discriminate].
    apply Z.eqb_eq in Hv. now subst.
Qed.

(** The three numbers the client reads in a formatted timestamp. *)
Lemma colon_parts_format S :
  0 <= S < 24 * 3600 ->
  colon_parts (formatTimestamp S) =
    [Some (S / 3600); Some (S mod 3600 / 60); Some (S mod 60)].
Proof.
  intros HS.
  assert (Hh : 0 <= S / 3600 < 100)
    by (split; [apply Z.div_pos; lia | apply Z.div_lt_upper_bound; lia]).
  assert (Hm : 0 <= S mod 3600 / 60 < 100).
  { pose proof (Z.mod_pos_bound S 3600 ltac:(lia)).
    split; [apply Z.div_pos; lia | apply Z.div_lt_upper_bound; lia]. }
  assert (Hs : 0 <= S mod 60 < 100)
    by (pose proof (Z.mod_pos_bound S 60 ltac:(lia)); lia).
  destruct (two_digit _ Hh) as [Ch Nh].
  destruct (two_digit _ Hm) as [Cm Nm].
  destruct (two_digit _ Hs) as [Cs Ns].
  unfold colon_parts, formatTimestamp, JS.floor_div, JS.rem, JS.Math_floor.
  rewrite !Z.rem_mod_nonneg by lia.
  fold (pad2 (S / 3600)) (pad2 (S mod 3600 / 60)) (pad2 (S mod 60)).
  repeat change (":" ++ ?x) with (String ":" x).
  rewrite (split_char_app ":" _ _ Ch), (split_char_app ":" _ _ Cm),
    (split_char_nosep ":" _ Cs).
  simpl. rewrite Nh, Nm, Ns. reflexivity.
Qed.

Lemma hms_sum S :
  0 <= S -> S / 3600 * 3600 + S mod 3600 / 60 * 60 + S mod 60 = S.
Proof. intros HS. Z.div_mod_to_equations. lia. Qed.

(** C3.  For every whole number of seconds S with 0 <= S < 24 * 3600, the
    string formatTimestamp makes of S is read back as S by both colon-split
    parsers of the client. *)
Theorem timestamp_round_trip (S : Z) :
  0 <= S < 24 * 3600 ->
  parseTimestamp (formatTimestamp S) = Some S /\
  handleTimestampClick (formatTimestamp S) = Some S.
Proof.
  intros HS.
  unfold parseTimestamp, handleTimestampClick.
  rewrite (colon_parts_format S HS). cbn.
  rewrite hms_sum by lia. split; reflexivity.
Qed.

Lemma timestamp_round_trip_witness :
  parseTimestamp (formatTimestamp 3725) = Some 3725 /\
  handleTimestampClick (formatTimestamp 3725) = Some 3725.
Proof. apply (timestamp_round_trip 3725). lia. Defined.

(** ** Running a handler *)

Ltac eff_unfold :=
  unfold mbind, mret, Eff_bind, Eff_ret, throw_if, throw, reply, db_call,
    db_read, deref.

Lemma eqb_OPTIONS m : m <> "OPTIONS" -> String.eqb m "OPTIONS" = false.
Proof. intros H. now apply String.eqb_neq. Qed.

Lemma serve_json {A} (handler : A -> Eff Response) req b db :
  method req <> "OPTIONS" ->
  payload req = Json b ->
  serve handler req db =
    match handler b db with
    | (Next r, db') => (r, db')
    | (Reply r, db') => (r, db')
    | (Throw msg, db') => (json_response 500 (BodyError msg), db')
    end.
Proof.
  intros Hm Hp. unfold serve. rewrite (eqb_OPTIONS _ Hm), Hp. reflexivity.
Qed.

Lemma bind_mret {A B} (a : A) (f : A -> Eff B) db :
  (mret a ≫= f) db = f a db.
Proof. reflexivity. Qed.

Lemma bind_next {A B} (m : Eff A) (f : A -> Eff B) db a db' :
  m db = (Next a, db') -> (m ≫= f) db = f a db'.
Proof. intros H. unfold mbind, Eff_bind. now rewrite H. Qed.

Lemma gateway_content_ok w answered st content :
  gateway w = GwResponse st (GwContent content) ->
  gw_ok st = true ->
  gateway_content w answered = mret content.
Proof. intros Hg Hok. unfold gateway_content. rewrite Hg, Hok. reflexivity. Qed.

(** ** analyze-video *)

(** A request that passes the validation, with the key set and an answer from
    the gateway: the run is decided by the two database calls. *)
Section AnalyzeRun.
Variables (w : World) (req : Request AnalyzeBody) (b : AnalyzeBody).
Variables (videoId : string) (st : Z) (content : option string) (db : DB).
Hypothesis Hmethod : method req <> "OPTIONS".
Hypothesis Hbody : payload req = Json b.
Hypothesis HvideoId : JS.or_null (a_videoId b) = Some videoId.
Hypothesis HvideoUrl : JS.falsy_str (a_videoUrl b) = false.
Hypothesis Hkey : JS.falsy_str (LOVABLE_API_KEY w) = false.
Hypothesis Hgateway : gateway w = GwResponse st (GwContent content).
Hypothesis Hok : gw_ok st = true.

Lemma analyze_run :
  serve_analyze_video w req db =
    let segments := parse_segments w (a_title b) content in
    let records := segmentRecords w videoId segments in
    match db_error w InsertSegments with
    | Some msg => (json_response 500 (BodyError msg), db)
    | None =>
        match db_error w UpdateVideo with
        | Some msg =>
            (json_response 500 (BodyError msg), insert_segments records db)
        | None =>
            (json_response 200 (BodyAnalyzed (length records)),
             update_video videoId ready (duration_seconds segments)
               (insert_segments records db))
        end
    end.
Proof.
  unfold serve_analyze_video. rewrite (serve_json _ _ _ _ Hmethod Hbody).
  unfold analyze_video. rewrite HvideoId.
  assert (Hurl : exists u, JS.or_null (a_videoUrl b) = Some u).
  { destruct (a_videoUrl b) as [[|c u]|]; try discriminate. eauto. }
  destruct Hurl as [u ->].
  rewrite (gateway_content_ok _ _ _ _ Hgateway Hok).
  eff_unfold. rewrite Hkey. cbn.
  destruct (db_error w InsertSegments); [reflexivity|].
  destruct (db_error w UpdateVideo); reflexivity.
Qed.
End AnalyzeRun.

(** The three ways the inner [try] of analyze-video throws. *)
Lemma extract_segments_None w content :
  extract_segments w content = None <->
  content = None \/
  (exists c, content = Some c /\ JS.match_delimited "[" "]" c = None) \/
  (exists c m, content = Some c /\ JS.match_delimited "[" "]" c = Some m /\
               JSON_parse_segments w m = None).
Proof.
  unfold extract_segments. split.
  - destruct content as [c|]; [|now left]. cbn.
    destruct (JS.match_delimited "[" "]" c) as [m|] eqn:E; cbn.
    + intros H. right. right. eauto.
    + intros _. right. left. eauto.
  - intros [->|[(c & -> & E)|(c & m & -> & E & P)]]; cbn;
      [reflexivity| |]; rewrite E; cbn; auto.
Qed.

Lemma fallback_timestamps w videoId title :
  map s_timestamp_seconds (segmentRecords w videoId (fallback_segments title))
  = [0; 30; 60; 120].
Proof. reflexivity. Qed.

(** C1.  When the content of the AI reply does not parse (it is missing, has
    no JSON array in it, or JSON.parse throws), analyze-video inserts exactly
    the four fallback segments, at 0, 30, 60 and 120 seconds, and its success
    response reports segmentsCreated = 4. *)
Theorem analyze_fallback_segments_inserted
    (w : World) (req : Request AnalyzeBody) (b : AnalyzeBody)
    (videoId : string) (st : Z) (content : option string) (db : DB) :
  method req <> "OPTIONS" ->
  payload req = Json b ->
  JS.or_null (a_videoId b) = Some videoId ->
  JS.falsy_str (a_videoUrl b) = false ->
  JS.falsy_str (LOVABLE_API_KEY w) = false ->
  gateway w = GwResponse st (GwContent content) ->
  gw_ok st = true ->
  extract_segments w content = None ->
  let records := segmentRecords w videoId (fallback_segments (a_title b)) in
  let (resp, db') := serve_analyze_video w req db in
  map s_timestamp_seconds records = [0; 30; 60; 120] /\
  (db_error w InsertSegments = None ->
   video_segments db' = (video_segments db ++ records)%list) /\
  (forall n, body resp = BodyAnalyzed n -> n = 4%nat) /\
  (db_error w InsertSegments = None -> db_error w UpdateVideo = None ->
   resp = json_response 200 (BodyAnalyzed 4)).
Proof.
  intros Hm Hb Hid Hurl Hkey Hgw Hok Hnone records.
  rewrite (analyze_run w req b videoId st content db Hm Hb Hid Hurl Hkey Hgw Hok).
  unfold parse_segments. rewrite Hnone. cbv zeta. fold records.
  destruct (db_error w InsertSegments) as [e|];
    [|destruct (db_error w UpdateVideo) as [e|]];
    cbn; (split; [reflexivity|]); (split; [|split]);
    intros; try discriminate; try reflexivity; congruence.
Qed.

Lemma analyze_fallback_segments_inserted_witness :
  let (resp, db') := serve_analyze_video prose_world analyze_request sample_db in
  map s_timestamp_seconds (video_segments db') = [0; 30; 60; 120] /\
  resp = json_response 200 (BodyAnalyzed 4).
Proof.
  pose proof (analyze_fallback_segments_inserted prose_world analyze_request
    _ "v1" 200 _ sample_db ltac:(discriminate) eq_refl eq_refl eq_refl eq_refl
    eq_refl eq_refl eq_refl) as H.
  cbv zeta in H.
  destruct (serve_analyze_video prose_world analyze_request sample_db)
    as [resp db'].
  destruct H as (Ht & Hins & _ & Hresp).
  split.
  - rewrite (Hins eq_refl). exact Ht.
  - exact (Hresp eq_refl eq_refl).
Defined.

(** What a successful run writes: the records of all the segments, then
    status ready and the duration computed from the parsed segments. *)
Lemma analyze_success_state
    (w : World) (req : Request AnalyzeBody) (b : AnalyzeBody)
    (videoId : string) (st : Z) (content : option string) (db : DB) :
  method req <> "OPTIONS" ->
  payload req = Json b ->
  JS.or_null (a_videoId b) = Some videoId ->
  JS.falsy_str (a_videoUrl b) = false ->
  JS.falsy_str (LOVABLE_API_KEY w) = false ->
  gateway w = GwResponse st (GwContent content) ->
  gw_ok st = true ->
  db_error w InsertSegments = None ->
  db_error w UpdateVideo = None ->
  let segments := parse_segments w (a_title b) content in
  let records := segmentRecords w videoId segments in
  serve_analyze_video w req db =
    (json_response 200 (BodyAnalyzed (length records)),
     update_video videoId ready (duration_seconds segments)
       (insert_segments records db)).
Proof.
  intros Hm Hb Hid Hurl Hkey Hgw Hok Hi Hu.
  rewrite (analyze_run w req b videoId st content db Hm Hb Hid Hurl Hkey Hgw Hok).
  cbv zeta. rewrite Hi, Hu. reflexivity.
Qed.

Lemma update_video_row videoId s d db v :
  In v (videos (update_video videoId s d db)) ->
  (exists v0, In v0 (videos db) /\ v_id v0 = videoId /\ v_id v = videoId /\
              v_status v = s /\ v_duration_seconds v = d) \/
  (In v (videos db) /\ v_id v <> videoId).
Proof.
  unfold update_video. cbn. rewrite in_map_iff. intros (v0 & Hv & Hin).
  destruct (String.eqb (v_id v0) videoId) eqn:E.
  - apply String.eqb_eq in E. left. exists v0. subst v. cbn. auto.
  - apply String.eqb_neq in E. right. subst v. auto.
Qed.

Lemma imap_timestamps_ext {A} (f g : nat -> A -> Z) (l : list A) :
  (forall i x, l !! i = Some x -> f i x = g i x) ->
  imap f l = imap g l.
Proof.
  revert f g. induction l as [|x l IH]; intros f g H; cbn; [reflexivity|].
  f_equal.
  - apply (H 0%nat). reflexivity.
  - apply IH. intros i y Hy. apply (H (S i)). exact Hy.
Qed.

Lemma segmentRecords_timestamps w videoId segments :
  map s_timestamp_seconds (segmentRecords w videoId segments) =
  imap (fun i s => JS.or_num (p_timestamp_seconds s) (Z.of_nat i * 30))
    segments.
Proof.
  unfold segmentRecords. rewrite fmap_imap. reflexivity.
Qed.

(** The duration agrees with the inserted records as long as no segment after
    the first falls back to its index. *)
Lemma duration_of_timed_segments w videoId segments :
  (forall i s, segments !! i = Some s -> (0 < i)%nat ->
               JS.or_num (p_timestamp_seconds s) 0 <> 0) ->
  duration_seconds segments =
  (fun m => m + 30) <$>
    JS.Math_max (map s_timestamp_seconds (segmentRecords w videoId segments)).
Proof.
  intros H. unfold duration_seconds. f_equal. f_equal.
  rewrite segmentRecords_timestamps.
  rewrite <- (imap_const (fun s => JS.or_num (p_timestamp_seconds s) 0)).
  apply imap_timestamps_ext. intros i s Hs.
  destruct i as [|i]; [reflexivity|].
  specialize (H _ _ Hs ltac:(lia)).
  unfold const.
  destruct (p_timestamp_seconds s) as [[| |]|];
    try reflexivity; exfalso; apply H; reflexivity.
Qed.

(** C2, at the reply [untimed_reply]: the run succeeds, the two segments are
    inserted at 0 and 30 seconds, and the video is made ready with a duration
    of 30 seconds, where the greatest inserted timestamp plus 30 is 60. *)
Theorem analyze_duration_misses_defaulted_timestamps :
  let (resp, db') := serve_analyze_video untimed_world analyze_request sample_db in
  resp = json_response 200 (BodyAnalyzed 2) /\
  map s_timestamp_seconds (video_segments db') = [0; 30] /\
  map (fun v => (v_status v, v_duration_seconds v)) (videos db')
    = [(ready, Some 30)] /\
  (fun m => m + 30) <$> JS.Math_max (map s_timestamp_seconds (video_segments db'))
    = Some 60.
Proof. vm_compute. repeat split; reflexivity. Qed.

(** C10.  A parsed segment at an index i > 0 whose timestamp_seconds is 0 or
    missing is inserted with timestamp_seconds = i * 30, which is not 0; a
    zero timestamp is kept as 0 at index 0 only. *)
Theorem analyze_zero_timestamp_becomes_index
    (w : World) (req : Request AnalyzeBody) (b : AnalyzeBody)
    (videoId : string) (st : Z) (content : option string) (db : DB)
    (segments : list ParsedSegment) (i : nat) (s : ParsedSegment) :
  method req <> "OPTIONS" ->
  payload req = Json b ->
  JS.or_null (a_videoId b) = Some videoId ->
  JS.falsy_str (a_videoUrl b) = false ->
  JS.falsy_str (LOVABLE_API_KEY w) = false ->
  gateway w = GwResponse st (GwContent content) ->
  gw_ok st = true ->
  extract_segments w content = Some segments ->
  db_error w InsertSegments = None ->
  segments !! i = Some s ->
  p_timestamp_seconds s = Some 0 \/ p_timestamp_seconds s = None ->
  exists r,
    video_segments (snd (serve_analyze_video w req db))
      !! (length (video_segments db) + i)%nat = Some r /\
    s_timestamp_seconds r = Z.of_nat i * 30 /\
    ((0 < i)%nat -> s_timestamp_seconds r <> 0) /\
    (s_timestamp_seconds r = 0 <-> i = 0%nat).
Proof.
  intros Hm Hb Hid Hurl Hkey Hgw Hok Hparse Hi Hs Hts.
  rewrite (analyze_run w req b videoId st content db Hm Hb Hid Hurl Hkey Hgw Hok).
  unfold parse_segments. rewrite Hparse, Hi. cbv zeta.
  set (records := segmentRecords w videoId segments).
  assert (Hr : exists r, records !! i = Some r /\
                         s_timestamp_seconds r = Z.of_nat i * 30).
  { unfold records, segmentRecords. rewrite list_lookup_imap, Hs. cbn.
    eexists. split; [reflexivity|]. cbn.
    destruct Hts as [-> | ->]; reflexivity. }
  destruct Hr as (r & Hr & Ht).
  exists r. split.
  - destruct (db_error w UpdateVideo); cbn;
      rewrite lookup_app_r by lia;
      (replace (length (video_segments db) + i - length (video_segments db))%nat
        with i by lia); exact Hr.
  - rewrite Ht. repeat split; lia.
Qed.

Lemma analyze_zero_timestamp_becomes_index_witness :
  exists r,
    video_segments
      (snd (serve_analyze_video zero_timed_world analyze_request sample_db))
      !! 1%nat = Some r /\
    s_timestamp_seconds r = 30.
Proof.
  destruct (analyze_zero_timestamp_becomes_index zero_timed_world
    analyze_request _ "v1" 200 _ sample_db [zero_timed; zero_timed] 1
    zero_timed
    ltac:(discriminate) eq_refl eq_refl eq_refl eq_refl
    eq_refl eq_refl eq_refl eq_refl eq_refl (or_introl eq_refl))
    as (r & Hr & Ht & _).
  exists r. split; [exact Hr | exact Ht].
Defined.

(** C6, as stated, fails: without the key, a request that has no videoId is
    answered with the validation message. *)
Lemma analyze_without_key_validation_first :
  fst (serve_analyze_video keyless_world untargeted_request sample_db)
    = json_response 500 (BodyError "Missing videoId or videoUrl") /\
  fst (serve_analyze_video keyless_world untargeted_request sample_db)
    <> json_response 500 (BodyError "LOVABLE_API_KEY is not configured").
Proof. split; [reflexivity | discriminate]. Qed.

(** C6, amended.  When LOVABLE_API_KEY is absent (or empty), no request
    changes the database: no segment is inserted and the video keeps its
    status; and every request that carries a videoId and a videoUrl is
    answered 500 with the error "LOVABLE_API_KEY is not configured". *)
Theorem analyze_without_key
    (w : World) (req : Request AnalyzeBody) (db : DB) :
  JS.falsy_str (LOVABLE_API_KEY w) = true ->
  snd (serve_analyze_video w req db) = db /\
  (forall b,
     method req <> "OPTIONS" ->
     payload req = Json b ->
     JS.falsy_str (a_videoId b) = false ->
     JS.falsy_str (a_videoUrl b) = false ->
     fst (serve_analyze_video w req db)
       = json_response 500 (BodyError "LOVABLE_API_KEY is not configured")).
Proof.
  intros Hkey. unfold serve_analyze_video, serve. split.
  - destruct (String.eqb (method req) "OPTIONS"); [reflexivity|].
    destruct (payload req) as [msg|b]; [reflexivity|].
    unfold analyze_video.
    destruct (JS.or_null (a_videoId b)); [|reflexivity].
    destruct (JS.or_null (a_videoUrl b)); [|reflexivity].
    eff_unfold. rewrite Hkey. reflexivity.
  - intros b Hm Hb Hid Hurl. rewrite (eqb_OPTIONS _ Hm), Hb.
    unfold analyze_video.
    destruct (a_videoId b) as [[|c i]|]; try discriminate.
    destruct (a_videoUrl b) as [[|c' u]|]; try discriminate.
    cbn. eff_unfold. rewrite Hkey. reflexivity.
Qed.

Lemma analyze_without_key_witness :
  serve_analyze_video keyless_world analyze_request sample_db
  = (json_response 500 (BodyError "LOVABLE_API_KEY is not configured"),
     sample_db).
Proof.
  destruct (analyze_without_key keyless_world analyze_request sample_db eq_refl)
    as [Hdb Hresp].
  specialize (Hresp _ ltac:(discriminate) eq_refl eq_refl eq_refl).
  destruct (serve_analyze_video keyless_world analyze_request sample_db).
  cbn in *. now subst.
Defined.

(** C7.  A request (other than the preflight) whose body omits a required
    field is answered with status 500, not 400, and an error message:
    videoId or videoUrl for analyze-video, query for search-videos, question
    or videoId for video-qa.  Nothing is written. *)
Theorem missing_field_is_500 :
  (forall w (req : Request AnalyzeBody) b db,
     method req <> "OPTIONS" -> payload req = Json b ->
     a_videoId b = None \/ a_videoUrl b = None ->
     serve_analyze_video w req db
       = (json_response 500 (BodyError "Missing videoId or videoUrl"), db)) /\
  (forall w (req : Request SearchBody) b db,
     method req <> "OPTIONS" -> payload req = Json b ->
     sb_query b = None ->
     serve_search_videos w req db
       = (json_response 500 (BodyError "Missing search query"), db)) /\
  (forall w (req : Request QABody) b db,
     method req <> "OPTIONS" -> payload req = Json b ->
     qa_question b = None \/ qa_videoId b = None ->
     serve_video_qa w req db
       = (json_response 500 (BodyError "Missing question or videoId"), db)).
Proof.
  repeat split.
  - intros w req b db Hm Hb H.
    unfold serve_analyze_video. rewrite (serve_json _ _ _ _ Hm Hb).
    unfold analyze_video.
    destruct H as [-> | ->]; cbn; [reflexivity|].
    destruct (JS.or_null (a_videoId b)); reflexivity.
  - intros w req b db Hm Hb H.
    unfold serve_search_videos. rewrite (serve_json _ _ _ _ Hm Hb).
    unfold search_videos. rewrite H. reflexivity.
  - intros w req b db Hm Hb H.
    unfold serve_video_qa. rewrite (serve_json _ _ _ _ Hm Hb).
    unfold video_qa.
    destruct H as [-> | ->]; cbn; [reflexivity|].
    destruct (JS.or_null (qa_question b)); reflexivity.
Qed.

Lemma missing_field_is_500_witness :
  serve_analyze_video prose_world untargeted_request sample_db
    = (json_response 500 (BodyError "Missing videoId or videoUrl"), sample_db) /\
  serve_search_videos prose_world
    {| method := "POST";
       payload := Json {| sb_query := None; sb_videoId := Some "v1";
                          sb_filters := None |} |} sample_db
    = (json_response 500 (BodyError "Missing search query"), sample_db) /\
  serve_video_qa prose_world
    {| method := "POST";
       payload := Json {| qa_question := Some "What happens?";
                          qa_videoId := None |} |} sample_db
    = (json_response 500 (BodyError "Missing question or videoId"), sample_db).
Proof.
  destruct missing_field_is_500 as (Ha & Hs & Hq).
  split; [|split].
  - eapply Ha; [discriminate | reflexivity | left; reflexivity].
  - eapply Hs; [discriminate | reflexivity | reflexivity].
  - eapply Hq; [discriminate | reflexivity | right; reflexivity].
Defined.

(** ** search-videos *)

(** A search that passes the validation, with the key set and segments to
    rank. *)
Section SearchRun.
Variables (w : World) (req : Request SearchBody) (b : SearchBody).
Variables (query : string) (db : DB).
Hypothesis Hmethod : method req <> "OPTIONS".
Hypothesis Hbody : payload req = Json b.
Hypothesis Hquery : JS.or_null (sb_query b) = Some query.
Hypothesis Hkey : JS.falsy_str (LOVABLE_API_KEY w) = false.
Hypothesis Hselect : db_error w SelectSegments = None.
Hypothesis Hsome : select_segments (sb_videoId b) db <> [].

(** The run up to the gateway call. *)
Lemma search_run :
  serve_search_videos w req db =
    let segments := select_segments (sb_videoId b) db in
    match
      (rankingContent ← gateway_content w true;
       rankings ← apply_object_filter (sb_filters b) segments
                    (parse_rankings w query segments rankingContent);
       results ← deref (build_results segments rankings) "id";
       mret (json_response 200 (BodyResults results))) db
    with
    | (Next r, db') => (r, db')
    | (Reply r, db') => (r, db')
    | (Throw msg, db') => (json_response 500 (BodyError msg), db')
    end.
Proof.
  unfold serve_search_videos. rewrite (serve_json _ _ _ _ Hmethod Hbody).
  unfold search_videos. rewrite Hquery.
  unfold mbind at 1 2. unfold Eff_bind at 1 2.
  unfold throw_if. rewrite Hkey. unfold mret at 1. unfold Eff_ret at 1.
  unfold db_read. rewrite Hselect. cbv zeta.
  destruct (select_segments (sb_videoId b) db) eqn:E; [congruence|].
  reflexivity.
Qed.

(** C8, amended.  On a failed gateway response search-videos answers 429
    for 429 and 402 for 402 itself; on every other failure it throws, and the
    caller gets status 500 with the message that names the gateway's
    status. *)
Theorem search_gateway_failure (st : Z) (gb : GatewayBody) :
  gateway w = GwResponse st gb ->
  gw_ok st = false ->
  serve_search_videos w req db =
    (if (st =? 429)%Z then
       json_response 429 (BodyError "Rate limited. Please try again later.")
     else if (st =? 402)%Z then
       json_response 402 (BodyError "Payment required. Please add funds.")
     else
       json_response 500 (BodyError ("AI gateway error: " ++ JS.toString st)),
     db).
Proof.
  intros Hgw Hbad. rewrite search_run. cbv zeta.
  unfold gateway_content. rewrite Hgw, Hbad. cbn [negb].
  unfold mbind, Eff_bind.
  destruct (st =? 429)%Z; [reflexivity|].
  destruct (st =? 402)%Z; reflexivity.
Qed.
End SearchRun.

(** C8, as stated, fails: a gateway failure 503 reaches the caller as 500. *)
Lemma search_gateway_503_is_500 :
  serve_search_videos overloaded_world (search_request "person" None) library_db
    = (json_response 500 (BodyError "AI gateway error: 503"), library_db) /\
  status (fst (serve_search_videos overloaded_world
                 (search_request "person" None) library_db)) <> 503.
Proof. split; [vm_compute; reflexivity | vm_compute; discriminate]. Qed.

Lemma search_gateway_failure_witness :
  serve_search_videos
    (world_with (Some "secret") (GwResponse 429 (GwContent None)) [] [] [])
    (search_request "person" None) library_db
  = (json_response 429 (BodyError "Rate limited. Please try again later."),
     library_db).
Proof.
  apply (search_gateway_failure
           (world_with (Some "secret") (GwResponse 429 (GwContent None)) [] [] [])
           (search_request "person" None) _ "person" library_db
           ltac:(discriminate) eq_refl eq_refl eq_refl eq_refl
           ltac:(vm_compute; discriminate) 429 (GwContent None)
           eq_refl eq_refl).
Defined.

(** *** The fallback scorer *)

(** With no content in the gateway's answer, the query "person" over the
    library ranks the one segment that mentions a person, with score 1. *)
Example search_person_fallback :
  serve_search_videos
    (world_with (Some "secret") (GwResponse 200 (GwContent None)) [] [] [])
    (search_request "person" None) library_db
  = (json_response 200
       (BodyResults
          [build_result
             {| seg := street_segment; seg_videos := ready_video |}
             {| index := 0; relevance_score := (1 # 1)%Q;
                reason := Some "Keyword matching fallback" |}]),
     library_db).
Proof. vm_compute. reflexivity. Qed.

Lemma Qgtb_true a b : Qgtb a b = true <-> (b < a)%Q.
Proof.
  unfold Qgtb. rewrite negb_true_iff. split.
  - intros H. apply Qnot_le_lt. intros Hle.
    apply Qle_bool_iff in Hle. congruence.
  - intros H. destruct (Qle_bool a b) eqn:E; [|reflexivity].
    apply Qle_bool_iff in E. exfalso. exact (Qlt_not_le _ _ H E).
Qed.

Lemma Qgtb_false a b : Qgtb a b = false <-> (a <= b)%Q.
Proof.
  unfold Qgtb. rewrite negb_false_iff. apply Qle_bool_iff.
Qed.

Lemma insert_desc_In r l x : In x (insert_desc r l) <-> x = r \/ In x l.
Proof.
  induction l as [|r' l IH]; cbn; [intuition congruence|].
  destruct (Qgtb (relevance_score r') (relevance_score r)); cbn;
    [rewrite IH|]; intuition congruence.
Qed.

Lemma sort_desc_In l x : In x (sort_desc l) <-> In x l.
Proof.
  induction l as [|r l IH]; cbn; [tauto|].
  rewrite insert_desc_In, IH. intuition congruence.
Qed.

Lemma insert_desc_HdRel a r l :
  score_ge a r -> HdRel score_ge a l -> HdRel score_ge a (insert_desc r l).
Proof.
  intros Har Hal. destruct l as [|r' l]; cbn; [now constructor|].
  destruct (Qgtb (relevance_score r') (relevance_score r));
    constructor; [|exact Har]. now inversion Hal.
Qed.

Lemma insert_desc_Sorted r l :
  Sorted score_ge l -> Sorted score_ge (insert_desc r l).
Proof.
  induction 1 as [|r' l Hs IH Hhd]; cbn; [repeat constructor|].
  destruct (Qgtb (relevance_score r') (relevance_score r)) eqn:E.
  - constructor; [exact IH|].
    apply insert_desc_HdRel; [|exact Hhd].
    apply Qgtb_true in E. now apply Qlt_le_weak.
  - apply Qgtb_false in E. repeat constructor; assumption.
Qed.

Lemma sort_desc_Sorted l : Sorted score_ge (sort_desc l).
Proof.
  induction l as [|r l IH]; cbn; [constructor | now apply insert_desc_Sorted].
Qed.

Lemma Sorted_take_desc n l : Sorted score_ge l -> Sorted score_ge (take n l).
Proof.
  revert l. induction n as [|n IH]; intros l Hl; [constructor|].
  destruct l as [|a l]; [constructor|]. cbn.
  apply Sorted_inv in Hl as [Hs Hhd].
  constructor; [now apply IH|].
  destruct n; [constructor|].
  destruct l; cbn; [constructor|]. constructor. now inversion Hhd.
Qed.

Lemma In_take {A} n (l : list A) x : In x (take n l) -> In x l.
Proof.
  revert l. induction n as [|n IH]; intros [|a l]; cbn; try tauto.
  intros [->|H]; [now left | right; now apply IH].
Qed.

(** The part of C4 that is about the scorer itself: at most 10 entries, every
    score above 0.3, scores in descending order, each entry the keyword score
    of the segment it points at. *)
Lemma fallback_rankings_spec query segments :
  let rankings := fallback_rankings query segments in
  (length rankings <= 10)%nat /\
  Sorted score_ge rankings /\
  forall r, In r rankings ->
    (3 # 10 < relevance_score r)%Q /\
    exists i s, segments !! i = Some s /\ index r = Z.of_nat i /\
                relevance_score r = keyword_score query (seg s).
Proof.
  unfold fallback_rankings. cbv zeta. split; [|split].
  - rewrite length_take. lia.
  - apply Sorted_take_desc, sort_desc_Sorted.
  - intros r Hr. apply In_take, sort_desc_In, filter_In in Hr as [Hin Hgt].
    split; [now apply Qgtb_true|].
    apply list_elem_of_In, elem_of_lookup_imap in Hin as (i & s & -> & Hs).
    exists i, s. auto.
Qed.

(** When the ranking content is missing, or JSON.parse throws on the array
    found in it, the rankings are the fallback scorer's. *)
Lemma parse_rankings_fallback w query segments content :
  content = None \/
  (exists c m, content = Some c /\ JS.match_delimited "[" "]" c = Some m /\
               JSON_parse_rankings w m = None) ->
  parse_rankings w query segments content = fallback_rankings query segments.
Proof.
  unfold parse_rankings.
  intros [-> | (c & m & -> & -> & ->)]; reflexivity.
Qed.

(** A reply in which no array is found leaves the rankings empty. *)
Lemma parse_rankings_no_array w query segments c :
  JS.match_delimited "[" "]" c = None ->
  parse_rankings w query segments (Some c) = [].
Proof. unfold parse_rankings. now intros ->. Qed.

(** C4, at the query "person" and a reply in prose: the fallback scorer ranks
    the segment that mentions a person, with score 1, and the handler returns
    no result at all. *)
Theorem search_prose_reply_skips_fallback :
  map (fun r => (index r, relevance_score r))
      (fallback_rankings "person" (select_segments None library_db))
    = [(0, (1 # 1)%Q)] /\
  parse_rankings unranked_world "person" (select_segments None library_db)
    (Some "I could not rank these segments.") = [] /\
  serve_search_videos unranked_world (search_request "person" None) library_db
    = (json_response 200 (BodyResults []), library_db).
Proof. vm_compute. repeat split; reflexivity. Qed.

(** *** The object filter *)

Lemma filter_by_object_In name min segments rankings kept :
  filter_by_object name min segments rankings = Some kept ->
  forall rank,
    In rank kept <->
    In rank rankings /\
    exists s count,
      segment_at segments (index rank) = Some s /\
      detected_count name (seg s) = Some count /\
      JS.or_num min 1 <= count.
Proof.
  revert kept. induction rankings as [|r rest IH]; cbn; intros kept H rank.
  - injection H as <-. cbn. tauto.
  - destruct (segment_at segments (index r)) as [s|] eqn:Es; [|discriminate].
    cbn in H.
    destruct (filter_by_object name min segments rest) as [rest'|];
      [|discriminate].
    cbn in H. injection H as <-. specialize (IH _ eq_refl rank).
    assert (Hok : object_count_ok name min (seg s) = true <->
                  exists count, detected_count name (seg s) = Some count /\
                                JS.or_num min 1 <= count).
    { unfold object_count_ok.
      destruct (detected_count name (seg s)) as [count|].
      - rewrite Z.leb_le. split; [eauto|]. now intros (c & [= <-] & Hc).
      - split; [discriminate|]. now intros (c & Hc & _). }
    destruct (object_count_ok name min (seg s)); cbn; rewrite IH.
    + destruct (proj1 Hok eq_refl) as (count & Hcount & Hle). split.
      * intros [<-|[Hin Hs]]; [split; [now left | eauto] | split; [now right | exact Hs]].
      * intros [[Heq|Hin] Hs]; [now left | right; auto].
    + split.
      * intros [Hin Hs]. auto.
      * intros [[<-|Hin] (s' & count & Hs' & Hcount & Hc)]; [|eauto 6].
        rewrite Es in Hs'. injection Hs' as <-.
        assert (false = true); [|discriminate]. apply Hok. eauto.
Qed.

Lemma filter_by_object_total name min segments rankings :
  (forall rank, In rank rankings ->
                is_Some (segment_at segments (index rank))) ->
  is_Some (filter_by_object name min segments rankings).
Proof.
  induction rankings as [|r rest IH]; cbn; intros H; [eauto|].
  destruct (H r) as [s ->]; [now left|]. cbn.
  destruct IH as [rest' ->]; [intros; apply H; now right|]. cbn. eauto.
Qed.


(** A name found on the prototype only: the value is not a number and the
    ranking is removed, also with a negative minimum. *)
Example object_filter_inherited_name :
  detected_count "constructor" empty_segment = None /\
  apply_object_filter
    (Some {| objectName := Some "constructor"; minCount := Some (-1) |})
    (select_segments None library_db)
    [ {| index := 3; relevance_score := (1 # 1)%Q; reason := None |} ]
    library_db
  = (Next [], library_db).
Proof. split; vm_compute; reflexivity. Qed.



(** ** video-qa *)

(** C9.  When no JSON object is found in the reply, or JSON.parse throws on
    the one found, video-qa returns the raw reply text as the answer, with an
    empty relevant_timestamps list. *)
Theorem qa_unparsed_reply_is_answer
    (w : World) (req : Request QABody) (b : QABody)
    (question videoId : string) (video : Video)
    (st : Z) (reply_content : option string) (db : DB) :
  method req <> "OPTIONS" ->
  payload req = Json b ->
  JS.or_null (qa_question b) = Some question ->
  JS.or_null (qa_videoId b) = Some videoId ->
  JS.falsy_str (LOVABLE_API_KEY w) = false ->
  db_error w SelectVideo = None ->
  List.filter (fun v => String.eqb (v_id v) videoId) (videos db) = [video] ->
  db_error w SelectVideoSegments = None ->
  gateway w = GwResponse st (GwContent reply_content) ->
  gw_ok st = true ->
  let content := JS.or_str reply_content "" in
  JS.match_delimited "{" "}" content = None \/
  (exists m, JS.match_delimited "{" "}" content = Some m /\
             JSON_parse_answer w m = None) ->
  fst (serve_video_qa w req db) = json_response 200 (BodyAnswer content []).
Proof.
  intros Hm Hb Hq Hid Hkey Hsel Hone Hsegs Hgw Hok content Hfail.
  unfold serve_video_qa. rewrite (serve_json _ _ _ _ Hm Hb).
  unfold video_qa. rewrite Hq, Hid.
  rewrite (gateway_content_ok _ _ _ _ Hgw Hok).
  assert (Hparse : parse_answer w content = (content, [])).
  { unfold parse_answer.
    destruct Hfail as [-> | (m & -> & ->)]; reflexivity. }
  rewrite (bind_next (throw_if _ _) _ db tt db)
    by (unfold throw_if; rewrite Hkey; reflexivity).
  rewrite (bind_next (select_video w videoId) _ db video db)
    by (unfold select_video; rewrite Hsel, Hone; reflexivity).
  erewrite (bind_next (db_read w SelectVideoSegments _) _ db _ db)
    by (unfold db_read; rewrite Hsegs; reflexivity).
  rewrite bind_mret. cbv zeta. fold content. rewrite Hparse.
  unfold mbind, Eff_bind, save_history.
  destruct (db_error w InsertHistory); reflexivity.
Qed.

Lemma qa_unparsed_reply_is_answer_witness :
  fst (serve_video_qa chatty_world qa_request library_db)
  = json_response 200 (BodyAnswer "A person walks a dog at 00:00:00." []).
Proof.
  apply (qa_unparsed_reply_is_answer chatty_world qa_request _
           "What happens in the video?" "v1" ready_video 200 _ library_db
           ltac:(discriminate) eq_refl eq_refl eq_refl eq_refl eq_refl eq_refl
           eq_refl eq_refl eq_refl (or_introl eq_refl)).
Defined.

(** * Further properties *)

(** ** Decimal strings *)

Lemma string_of_uint_digits d :
  all_digits (NilEmpty.string_of_uint d) = true.
Proof. induction d; cbn; auto. Qed.

Lemma string_of_uint_nonnil d :
  d <> Decimal.Nil -> NilZero.string_of_uint d = NilEmpty.string_of_uint d.
Proof. destruct d; congruence || reflexivity. Qed.

Lemma toString_digits n :
  0 <= n -> all_digits (JS.toString n) = true /\ JS.toString n <> EmptyString.
Proof.
  intros Hn. unfold JS.toString. destruct n as [|p|p]; [now split| |lia].
  cbn [Z.to_int NilZero.string_of_int].
  pose proof (Unsigned.to_uint_nonnil p) as Hnil.
  rewrite (string_of_uint_nonnil _ Hnil).
  split; [apply string_of_uint_digits|].
  destruct (Pos.to_uint p); try congruence; discriminate.
Qed.

Lemma digit_cases c :
  is_digit c = true ->
  JS.is_space c = false /\ Ascii.eqb c ":" = false /\ Ascii.eqb c "/" = false /\
  Ascii.eqb c "-" = false /\ Ascii.eqb c "+" = false.
Proof.
  destruct c as [[] [] [] [] [] [] [] []]; try discriminate;
    intros _; repeat split; reflexivity.
Qed.

Lemma all_digits_no_char c s :
  is_digit c = false -> all_digits s = true -> has_char c s = false.
Proof.
  intros Hc. induction s as [|a s IH]; cbn; [reflexivity|].
  intros H. apply andb_true_iff in H as [Ha Hs]. rewrite (IH Hs).
  destruct (Ascii.eqb_spec a c) as [->|]; [congruence | reflexivity].
Qed.

Lemma all_digits_trimEnd s : all_digits s = true -> JS.trimEnd s = s.
Proof.
  induction s as [|a s IH]; cbn; [reflexivity|].
  intros H. apply andb_true_iff in H as [Ha Hs]. rewrite (IH Hs).
  destruct (digit_cases a Ha) as (-> & _). now destruct s.
Qed.

Lemma all_digits_trim s : all_digits s = true -> JS.trim s = s.
Proof.
  intros H. unfold JS.trim.
  assert (JS.trimStart s = s) as ->.
  { destruct s as [|a s]; [reflexivity|]. cbn in *.
    apply andb_true_iff in H as [Ha _].
    now destruct (digit_cases a Ha) as (-> & _). }
  now apply all_digits_trimEnd.
Qed.

(** [Number] of a digit string with any number of zeros in front. *)
Lemma Number_digits s d :
  all_digits s = true ->
  NilEmpty.uint_of_string s = Some d ->
  s <> EmptyString ->
  JS.Number s = Some (Z.of_uint d).
Proof.
  intros Hs Hd Hne. unfold JS.Number. rewrite (all_digits_trim s Hs).
  destruct s as [|a s]; [congruence|].
  cbn in Hs. apply andb_true_iff in Hs as [Ha Hs].
  destruct (digit_cases a Ha) as (_ & _ & _ & Hminus & Hplus).
  assert (Hint : NilZero.int_of_string (String a s) = Some (Decimal.Pos d)).
  { unfold NilZero.int_of_string. rewrite Hminus.
    unfold NilZero.uint_of_string. now rewrite Hd. }
  destruct a as [[] [] [] [] [] [] [] []]; try discriminate;
    now rewrite Hint.
Qed.

Lemma zeros_succ k s :
  String.concat "" (repeat "0" (S k)) ++ s
  = String "0" (String.concat "" (repeat "0" k) ++ s).
Proof. destruct k; reflexivity. Qed.

Lemma uint_of_string_zeros k s d :
  NilEmpty.uint_of_string s = Some d ->
  exists d', NilEmpty.uint_of_string
               (String.concat "" (repeat "0" k) ++ s) = Some d' /\
             Z.of_uint d' = Z.of_uint d.
Proof.
  intros Hd. induction k as [|k (d' & Hd' & Hz)]; [now exists d|].
  rewrite zeros_succ. exists (Decimal.D0 d').
  change (NilEmpty.uint_of_string (String "0" ?x))
    with (uint_of_char "0" (NilEmpty.uint_of_string x)).
  rewrite Hd'. now split.
Qed.

Lemma all_digits_zeros k s :
  all_digits s = true ->
  all_digits (String.concat "" (repeat "0" k) ++ s) = true.
Proof.
  intros Hs. induction k as [|k IH]; [exact Hs|].
  rewrite zeros_succ. exact IH.
Qed.

(** A non-negative integer, printed and padded with zeros, is read back by
    [Number], and has only digits. *)
Lemma Number_padStart0 k n :
  0 <= n ->
  all_digits (JS.padStart0 k (JS.toString n)) = true /\
  JS.padStart0 k (JS.toString n) <> EmptyString /\
  JS.Number (JS.padStart0 k (JS.toString n)) = Some n.
Proof.
  intros Hn. destruct (toString_digits n Hn) as [Hs Hne].
  assert (Hd : NilEmpty.uint_of_string (JS.toString n)
               = Some (match Z.to_int n with
                       | Decimal.Pos d => d | Decimal.Neg d => d end)).
  { unfold JS.toString in *. destruct n as [|p|p]; [reflexivity| |lia].
    cbn [Z.to_int NilZero.string_of_int].
    rewrite (string_of_uint_nonnil _ (Unsigned.to_uint_nonnil p)).
    apply NilEmpty.usu. }
  unfold JS.padStart0.
  set (k' := (k - String.length (JS.toString n))%nat).
  destruct (uint_of_string_zeros k' _ _ Hd) as (d' & Hd' & Hz).
  pose proof (all_digits_zeros k' _ Hs) as Hall.
  assert (Hne' : String.concat "" (repeat "0" k') ++ JS.toString n
                 <> EmptyString).
  { destruct (JS.toString n) eqn:E; [congruence|].
    destruct (String.concat "" (repeat "0" k')); discriminate. }
  split; [exact Hall|]. split; [exact Hne'|].
  rewrite (Number_digits _ _ Hall Hd' Hne'), Hz. f_equal.
  destruct n as [|p|p]; [reflexivity| |lia].
  cbn. apply (DecimalZ.of_to (Z.pos p)).
Qed.

Lemma hms_parts S :
  0 <= S -> 0 <= S / 3600 /\ 0 <= S mod 3600 / 60 /\ 0 <= S mod 60.
Proof. intros HS. repeat split; Z.div_mod_to_equations; lia. Qed.

Lemma colon_parts_format_any S :
  0 <= S ->
  colon_parts (formatTimestamp S) =
    [Some (S / 3600); Some (S mod 3600 / 60); Some (S mod 60)].
Proof.
  intros HS. destruct (hms_parts S HS) as (Hh & Hm & Hs).
  destruct (Number_padStart0 2 _ Hh) as (Dh & _ & Nh).
  destruct (Number_padStart0 2 _ Hm) as (Dm & _ & Nm).
  destruct (Number_padStart0 2 _ Hs) as (Ds & _ & Ns).
  pose proof (all_digits_no_char ":" _ eq_refl Dh) as Ch.
  pose proof (all_digits_no_char ":" _ eq_refl Dm) as Cm.
  pose proof (all_digits_no_char ":" _ eq_refl Ds) as Cs.
  unfold colon_parts, formatTimestamp, JS.floor_div, JS.rem, JS.Math_floor.
  rewrite !Z.rem_mod_nonneg by lia.
  repeat change (":" ++ ?x) with (String ":" x).
  rewrite (split_char_app ":" _ _ Ch), (split_char_app ":" _ _ Cm),
    (split_char_nosep ":" _ Cs).
  cbn [map]. rewrite Nh, Nm, Ns. reflexivity.
Qed.

(** X1.  For every whole number of seconds S with 0 <= S <= 2^53 - 1 (the
    integers a JavaScript number holds exactly; not only below 100 hours),
    the string formatTimestamp makes of S is read back as S by both
    colon-split parsers of the client. *)
Theorem round_trip_safe_integers (S : Z) :
  0 <= S <= MAX_SAFE_INTEGER ->
  parseTimestamp (formatTimestamp S) = Some S /\
  handleTimestampClick (formatTimestamp S) = Some S.
Proof.
  intros [HS _]. unfold parseTimestamp, handleTimestampClick.
  rewrite (colon_parts_format_any S HS). cbn.
  rewrite hms_sum by lia. split; reflexivity.
Qed.

Lemma round_trip_safe_integers_witness :
  parseTimestamp "111:06:40" = Some 400000 /\
  handleTimestampClick (formatTimestamp 400000) = Some 400000.
Proof.
  destruct (round_trip_safe_integers 400000
              ltac:(unfold MAX_SAFE_INTEGER; lia)) as [Hp Hc].
  split; [exact Hp | exact Hc].
Defined.

(** X2.  The two colon-split parsers of the client, written separately in the
    chat panel and in the page, give the same result on every string. *)
Theorem client_parsers_agree (ts : string) :
  handleTimestampClick ts = parseTimestamp ts.
Proof.
  unfold handleTimestampClick, parseTimestamp.
  destruct (colon_parts ts) as [|a [|b [|c [|d l]]]]; reflexivity.
Qed.

(** X3.  A timestamp string without a colon is read as 0 seconds by both
    parsers, whatever it says (a bare number of seconds included). *)
Theorem timestamp_without_colon_is_zero (ts : string) :
  has_char ":" ts = false ->
  parseTimestamp ts = Some 0 /\ handleTimestampClick ts = Some 0.
Proof.
  intros H. unfold handleTimestampClick, parseTimestamp, colon_parts.
  rewrite (split_char_nosep ":" ts H). split; reflexivity.
Qed.

Lemma timestamp_without_colon_is_zero_witness :
  parseTimestamp "90" = Some 0 /\ handleTimestampClick "90" = Some 0.
Proof. apply timestamp_without_colon_is_zero. reflexivity. Defined.

(** X4.  For every duration of at least one second, the M:SS string that
    formatDuration shows is read back as that duration by the two-part branch
    of both parsers. *)
Theorem formatDuration_round_trip (seconds : Z) :
  0 < seconds ->
  parseTimestamp (formatDuration (Some seconds)) = Some seconds /\
  handleTimestampClick (formatDuration (Some seconds)) = Some seconds.
Proof.
  intros HS.
  assert (Hm : 0 <= seconds / 60) by (Z.div_mod_to_equations; lia).
  assert (Hs : 0 <= seconds mod 60) by (Z.div_mod_to_equations; lia).
  destruct (Number_padStart0 0 _ Hm) as (Dm & _ & Nm).
  destruct (Number_padStart0 2 _ Hs) as (Ds & _ & Ns).
  pose proof (all_digits_no_char ":" _ eq_refl Dm) as Cm.
  pose proof (all_digits_no_char ":" _ eq_refl Ds) as Cs.
  assert (Hparts : colon_parts (formatDuration (Some seconds))
                   = [Some (seconds / 60); Some (seconds mod 60)]).
  { unfold colon_parts, formatDuration, JS.floor_div, JS.rem, JS.Math_floor.
    destruct seconds as [|p|p]; try lia.
    rewrite !Z.rem_mod_nonneg by lia.
    change (JS.toString (Z.pos p / 60))
      with (JS.padStart0 0 (JS.toString (Z.pos p / 60))).
    repeat change (":" ++ ?x) with (String ":" x).
    rewrite (split_char_app ":" _ _ Cm), (split_char_nosep ":" _ Cs).
    cbn [map]. rewrite Nm, Ns. reflexivity. }
  unfold parseTimestamp, handleTimestampClick. rewrite Hparts. cbn.
  split; f_equal; Z.div_mod_to_equations; lia.
Qed.

Lemma formatDuration_round_trip_witness :
  formatDuration (Some 150) = "2:30" /\
  parseTimestamp (formatDuration (Some 150)) = Some 150.
Proof.
  split; [reflexivity|].
  apply (formatDuration_round_trip 150). lia.
Defined.

(** ** File names of uploads *)

Lemma all_chars_app P s t :
  all_chars P (s ++ t) = all_chars P s && all_chars P t.
Proof.
  induction s as [|c s IH]; [reflexivity|].
  change (String c s ++ t) with (String c (s ++ t)). cbn.
  now rewrite IH, andb_assoc.
Qed.

Lemma all_chars_impl (P Q : ascii -> bool) s :
  (forall c, P c = true -> Q c = true) ->
  all_chars P s = true -> all_chars Q s = true.
Proof.
  intros HPQ. induction s as [|c s IH]; cbn; [reflexivity|].
  intros H. apply andb_true_iff in H as [Hc Hs].
  now rewrite (HPQ c Hc), (IH Hs).
Qed.

Lemma all_chars_no_char P c s :
  P c = false -> all_chars P s = true -> has_char c s = false.
Proof.
  intros Hc. induction s as [|a s IH]; cbn; [reflexivity|].
  intros H. apply andb_true_iff in H as [Ha Hs]. rewrite (IH Hs).
  destruct (Ascii.eqb_spec a c) as [->|]; [congruence | reflexivity].
Qed.

Lemma all_digits_all_chars s : all_digits s = all_chars is_digit s.
Proof. induction s as [|c s IH]; cbn; [reflexivity | now rewrite IH]. Qed.

Lemma digit_is_stored c : is_digit c = true -> is_stored_char c = true.
Proof.
  destruct c as [[] [] [] [] [] [] [] []]; try discriminate; reflexivity.
Qed.

Lemma sanitize_name_stored name :
  all_chars is_stored_char (sanitize_name name) = true.
Proof.
  induction name as [|c s IH]; cbn; [reflexivity|]. rewrite IH.
  unfold is_stored_char.
  destruct (is_name_char c) eqn:E; [now rewrite E | reflexivity].
Qed.

Lemma sanitize_name_safe name :
  all_chars is_name_char name = true -> sanitize_name name = name.
Proof.
  induction name as [|c s IH]; cbn; [reflexivity|].
  intros H. apply andb_true_iff in H as [-> Hs]. now rewrite (IH Hs).
Qed.

(** X5.  The name a file is stored under has only letters, digits, ".", "-"
    and "_": no "/" and no white space, whatever the file is called; its
    storage path has the two components "uploads" and that name. *)
Theorem upload_filename_is_flat (now : Z) (name : string) :
  0 <= now ->
  all_chars is_stored_char (upload_filename now name) = true /\
  has_char "/" (upload_filename now name) = false /\
  all_chars (fun c => negb (JS.is_space c)) (upload_filename now name) = true /\
  JS.split_char "/" (upload_storagePath now name)
    = ["uploads"; upload_filename now name].
Proof.
  intros Hnow.
  assert (H : all_chars is_stored_char (upload_filename now name) = true).
  { unfold upload_filename. rewrite !all_chars_app.
    destruct (toString_digits now Hnow) as [Hd _].
    rewrite all_digits_all_chars in Hd.
    rewrite (all_chars_impl _ _ _ digit_is_stored Hd), sanitize_name_stored.
    reflexivity. }
  pose proof (all_chars_no_char _ "/" _ eq_refl H) as Hflat.
  split; [exact H|]. split; [exact Hflat|]. split.
  - revert H. apply all_chars_impl.
    intros c. destruct c as [[] [] [] [] [] [] [] []]; try discriminate;
      reflexivity.
  - unfold upload_storagePath.
    change ("uploads/" ++ ?f) with ("uploads" ++ String "/" f).
    rewrite (split_char_app "/" "uploads" _ eq_refl),
      (split_char_nosep "/" _ Hflat).
    reflexivity.
Qed.

Lemma upload_filename_is_flat_witness :
  upload_filename 1734260000000 "../my clip (1).mp4"
    = "1734260000000-.._my_clip__1_.mp4" /\
  has_char "/" (upload_filename 1734260000000 "../my clip (1).mp4") = false.
Proof.
  split; [vm_compute; reflexivity|].
  apply (upload_filename_is_flat 1734260000000 "../my clip (1).mp4"). lia.
Defined.

(** ** The timeline *)

Lemma fold_max_ge l x : x <= fold_left Z.max l x.
Proof.
  revert x. induction l as [|y l IH]; cbn; intros x; [lia|].
  specialize (IH (Z.max x y)). lia.
Qed.

Lemma fold_max_upper l x y : In y l -> y <= fold_left Z.max l x.
Proof.
  revert x. induction l as [|z l IH]; cbn; intros x; [tauto|].
  intros [->|Hin]; [|now apply IH].
  pose proof (fold_max_ge l (Z.max x y)). lia.
Qed.

Lemma fold_max_In l x : fold_left Z.max l x = x \/ In (fold_left Z.max l x) l.
Proof.
  revert x. induction l as [|z l IH]; cbn; intros x; [now left|].
  destruct (IH (Z.max x z)) as [H|H]; [|now right; right].
  rewrite H. destruct (Z.max_spec x z) as [[_ ->]|[_ ->]]; auto.
Qed.

Lemma Math_max_spec l m :
  JS.Math_max l = Some m <-> In m l /\ forall y, In y l -> y <= m.
Proof.
  destruct l as [|x l]; cbn; [split; [discriminate | tauto]|].
  split.
  - intros [= <-]. split.
    + destruct (fold_max_In l x) as [->|H]; auto.
    + intros y [<-|Hy]; [apply fold_max_ge | now apply fold_max_upper].
  - intros [Hin Hub]. f_equal. apply Z.le_antisymm.
    + destruct (fold_max_In l x) as [->|H]; apply Hub; auto.
    + destruct Hin as [<-|Hin]; [apply fold_max_ge | now apply fold_max_upper].
Qed.

(** X6.  With segments at non-negative times, the timeline scale is positive,
    no segment lies beyond it, and every marker is on the bar. *)
Theorem Timeline_markers_on_bar (segments : list Segment) :
  segments <> [] ->
  (forall s, In s segments -> 0 <= s_timestamp_seconds s) ->
  exists maxTime,
    Timeline_maxTime segments = Some maxTime /\
    0 < maxTime /\
    forall s, In s segments ->
      s_timestamp_seconds s <= maxTime /\
      (0 <= marker_left maxTime s)%Q /\ (marker_left maxTime s <= 100)%Q.
Proof.
  intros Hne Hpos. unfold Timeline_maxTime.
  destruct segments as [|s0 l]; [congruence|].
  set (segs := s0 :: l) in *.
  destruct (JS.Math_max (map s_timestamp_seconds segs)) as [m|] eqn:E;
    [|discriminate].
  apply Math_max_spec in E as [Hin Hub].
  apply in_map_iff in Hin as (sm & Hsm & Hinm).
  assert (Hm0 : 0 <= m) by (rewrite <- Hsm; now apply Hpos).
  exists (JS.or_num (Some m) 1). split; [reflexivity|].
  assert (Hor : 0 < JS.or_num (Some m) 1 /\ m <= JS.or_num (Some m) 1)
    by (destruct m; cbn; lia).
  destruct Hor as [Hgt Hle]. split; [exact Hgt|].
  intros s Hs.
  assert (Hts : s_timestamp_seconds s <= m)
    by (apply Hub, in_map_iff; eauto).
  specialize (Hpos s Hs). split; [lia|].
  unfold marker_left.
  destruct (JS.or_num (Some m) 1) as [|p|p] eqn:Ep; try lia.
  unfold Qle, Qdiv, Qmult, Qinv, inject_Z. cbn. split; nia.
Qed.

Lemma Timeline_markers_on_bar_witness :
  exists maxTime,
    Timeline_maxTime
      [street_segment; junction_segment; parking_segment; empty_segment]
      = Some maxTime /\ 0 < maxTime.
Proof.
  destruct (Timeline_markers_on_bar
              [street_segment; junction_segment; parking_segment; empty_segment]
              ltac:(discriminate)) as (m & Hm & Hpos & _).
  - intros s [<-|[<-|[<-|[<-|[]]]]]; cbn; lia.
  - exists m. split; [exact Hm | exact Hpos].
Defined.

(** ** Runs that do not write, and the statuses of the responses *)

Section Frames.
Context {A B : Type}.

Lemma read_only_bind (m : Eff A) (f : A -> Eff B) :
  read_only m -> (forall a, read_only (f a)) -> read_only (m ≫= f).
Proof.
  intros Hm Hf db. unfold mbind, Eff_bind. specialize (Hm db).
  destruct (m db) as [[a|r|e] db1]; cbn in *; subst; auto.
  apply Hf.
Qed.

Lemma read_only_ret (a : A) : read_only (mret a).
Proof. intros db. reflexivity. Qed.

Lemma read_only_throw msg : read_only (@throw A msg).
Proof. intros db. reflexivity. Qed.

Lemma read_only_reply r : read_only (@reply A r).
Proof. intros db. reflexivity. Qed.

Lemma read_only_db_read w c (q : DB -> A) : read_only (db_read w c q).
Proof. intros db. unfold db_read. now destruct (db_error w c). Qed.

Lemma read_only_deref (x : option A) prop : read_only (deref x prop).
Proof. intros db. now destruct x. Qed.

Lemma replies_in_bind P (m : Eff A) (f : A -> Eff B) :
  replies_in P m -> (forall a, replies_in P (f a)) -> replies_in P (m ≫= f).
Proof.
  intros Hm Hf db r db'. unfold mbind, Eff_bind.
  destruct (m db) as [[a|r0|e] db1] eqn:E; intros H.
  - exact (Hf a _ _ _ H).
  - injection H as <- <-. exact (Hm _ _ _ E).
  - discriminate.
Qed.

Lemma replies_in_quiet P (m : Eff A) :
  (forall db r db', m db <> (Reply r, db')) -> replies_in P m.
Proof. intros H db r db' E. now apply H in E. Qed.

Lemma returns_in_bind P (m : Eff A) (f : A -> Eff Response) :
  (forall a, returns_in P (f a)) -> returns_in P (m ≫= f).
Proof.
  intros Hf db r db'. unfold mbind, Eff_bind.
  destruct (m db) as [[a|r0|e] db1] eqn:E; intros H; try discriminate.
  exact (Hf a _ _ _ H).
Qed.
End Frames.

Lemma read_only_throw_if c msg : read_only (throw_if c msg).
Proof. intros db. now destruct c. Qed.

Lemma read_only_gateway_content w answered :
  read_only (gateway_content w answered).
Proof.
  intros db. unfold gateway_content.
  destruct (gateway w) as [msg|st [msg|c]]; [reflexivity| |];
    destruct (gw_ok st); cbn; try reflexivity;
    destruct (st =? 429)%Z; destruct answered; try reflexivity;
    destruct (st =? 402)%Z; reflexivity.
Qed.

Lemma read_only_apply_object_filter filters segments rankings :
  read_only (apply_object_filter filters segments rankings).
Proof.
  unfold apply_object_filter.
  destruct (filters ≫= _); [apply read_only_deref | apply read_only_ret].
Qed.

Lemma read_only_serve {A} (handler : A -> Eff Response) req db :
  (forall b, read_only (handler b)) -> snd (serve handler req db) = db.
Proof.
  intros H. unfold serve.
  destruct (String.eqb (method req) "OPTIONS"); [reflexivity|].
  destruct (payload req) as [msg|b]; [reflexivity|].
  specialize (H b db). now destruct (handler b db) as [[r|r|e] db'].
Qed.

Lemma search_videos_read_only w b : read_only (search_videos w b).
Proof.
  unfold search_videos.
  destruct (JS.or_null (sb_query b)); [|apply read_only_throw].
  apply read_only_bind; [apply read_only_throw_if | intros _].
  apply read_only_bind; [apply read_only_db_read | intros segments].
  destruct segments; [apply read_only_reply|].
  apply read_only_bind; [apply read_only_gateway_content | intros c].
  apply read_only_bind; [apply read_only_apply_object_filter | intros rk].
  apply read_only_bind; [apply read_only_deref | intros res].
  apply read_only_ret.
Qed.

(** X7.  The handler search-videos never writes: after every request, in
    every world, the database is as it was. *)
Theorem search_never_writes (w : World) (req : Request SearchBody) (db : DB) :
  snd (serve_search_videos w req db) = db.
Proof. apply read_only_serve, search_videos_read_only. Qed.

Lemma gateway_content_replies w answered :
  replies_in (fun st => st = 429 \/ st = 402) (gateway_content w answered).
Proof.
  intros db r db'. unfold gateway_content.
  destruct (gateway w) as [msg|st [msg|c]]; try discriminate;
    destruct (gw_ok st); cbn; try discriminate;
    destruct (st =? 429)%Z; destruct answered; try discriminate;
    try (intros [= <- <-]; now left);
    destruct (st =? 402)%Z; try discriminate;
    intros [= <- <-]; now right.
Qed.

Lemma gateway_content_quiet w db r db' :
  gateway_content w false db <> (Reply r, db').
Proof.
  unfold gateway_content.
  destruct (gateway w) as [msg|st [msg|c]]; try discriminate;
    destruct (gw_ok st); cbn; try discriminate;
    destruct (st =? 429)%Z; try discriminate;
    destruct (st =? 402)%Z; discriminate.
Qed.

Lemma serve_status {A} (P : Z -> Prop) (handler : A -> Eff Response) req db :
  P 200 -> P 500 ->
  (forall b, replies_in P (handler b)) ->
  (forall b, returns_in P (handler b)) ->
  P (status (fst (serve handler req db))).
Proof.
  intros H200 H500 Hrep Hret. unfold serve.
  destruct (String.eqb (method req) "OPTIONS"); [exact H200|].
  destruct (payload req) as [msg|b]; [exact H500|].
  destruct (handler b db) as [[r|r|e] db'] eqn:E; cbn.
  - exact (Hret _ _ _ _ E).
  - exact (Hrep _ _ _ _ E).
  - exact H500.
Qed.


Ltac quiet :=
  apply replies_in_quiet; intros db r db';
  unfold apply_object_filter, throw_if, db_read, db_call, deref,
    select_video, save_history, throw, mret, Eff_ret;
  repeat match goal with
         | |- context [match ?x with _ => _ end] => destruct x
         | |- context [if ?x then _ else _] => destruct x
         end; discriminate.

Lemma gateway_content_replies_weak w answered :
  replies_in gateway_statuses (gateway_content w answered).
Proof.
  intros db r db' E. destruct (gateway_content_replies _ _ _ _ _ E) as [H|H];
    rewrite H; unfold gateway_statuses; auto.
Qed.

Lemma search_videos_replies w b : replies_in gateway_statuses (search_videos w b).
Proof.
  unfold search_videos.
  destruct (JS.or_null (sb_query b)); [|quiet].
  apply replies_in_bind; [quiet | intros _].
  apply replies_in_bind; [quiet | intros segments].
  destruct segments.
  { intros db r db' [= <- <-]. now left. }
  apply replies_in_bind; [apply gateway_content_replies_weak | intros c].
  apply replies_in_bind; [quiet | intros rk].
  apply replies_in_bind; [quiet | intros res]. quiet.
Qed.

Lemma search_videos_returns w b : returns_in gateway_statuses (search_videos w b).
Proof.
  unfold search_videos.
  destruct (JS.or_null (sb_query b)); [|intros db r db'; discriminate].
  apply returns_in_bind; intros _.
  apply returns_in_bind; intros segments.
  destruct segments; [intros db r db'; discriminate|].
  apply returns_in_bind; intros c.
  apply returns_in_bind; intros rk.
  apply returns_in_bind; intros res.
  intros db r db' [= <- <-]. now left.
Qed.

Lemma analyze_video_replies w b : replies_in analyze_statuses (analyze_video w b).
Proof.
  unfold analyze_video.
  destruct (JS.or_null (a_videoId b)); [|quiet].
  destruct (JS.or_null (a_videoUrl b)); [|quiet].
  apply replies_in_bind; [quiet | intros _].
  apply replies_in_bind;
    [apply replies_in_quiet, gateway_content_quiet | intros c].
  apply replies_in_bind; [quiet | intros _].
  apply replies_in_bind; [quiet | intros _]. quiet.
Qed.

Lemma analyze_video_returns w b : returns_in analyze_statuses (analyze_video w b).
Proof.
  unfold analyze_video.
  destruct (JS.or_null (a_videoId b)); [|intros db r db'; discriminate].
  destruct (JS.or_null (a_videoUrl b)); [|intros db r db'; discriminate].
  apply returns_in_bind; intros _.
  apply returns_in_bind; intros c.
  apply returns_in_bind; intros _.
  apply returns_in_bind; intros _.
  intros db r db' [= <- <-]. now left.
Qed.

Lemma video_qa_replies w b : replies_in gateway_statuses (video_qa w b).
Proof.
  unfold video_qa.
  destruct (JS.or_null (qa_question b)); [|quiet].
  destruct (JS.or_null (qa_videoId b)); [|quiet].
  apply replies_in_bind; [quiet | intros _].
  apply replies_in_bind; [quiet | intros v].
  apply replies_in_bind; [quiet | intros segs].
  apply replies_in_bind; [apply gateway_content_replies_weak | intros c].
  cbv zeta. destruct (parse_answer w (JS.or_str c "")) as [answer ts].
  apply replies_in_bind; [quiet | intros _]. quiet.
Qed.

Lemma video_qa_returns w b : returns_in gateway_statuses (video_qa w b).
Proof.
  unfold video_qa.
  destruct (JS.or_null (qa_question b)); [|intros db r db'; discriminate].
  destruct (JS.or_null (qa_videoId b)); [|intros db r db'; discriminate].
  apply returns_in_bind; intros _.
  apply returns_in_bind; intros v.
  apply returns_in_bind; intros segs.
  apply returns_in_bind; intros c.
  cbv zeta. destruct (parse_answer w (JS.or_str c "")) as [answer ts].
  apply returns_in_bind; intros _.
  intros db r db' [= <- <-]. now left.
Qed.

(** X8.  Whatever the request and the world, analyze-video answers 200 or 500,
    and search-videos and video-qa answer 200, 402, 429 or 500. *)
Theorem handler_statuses (w : World) (db : DB) :
  (forall req, analyze_statuses (status (fst (serve_analyze_video w req db)))) /\
  (forall req, gateway_statuses (status (fst (serve_search_videos w req db)))) /\
  (forall req, gateway_statuses (status (fst (serve_video_qa w req db)))).
Proof.
  split; [|split]; intros req.
  - apply (serve_status analyze_statuses);
      [now left | now right
      | apply analyze_video_replies | apply analyze_video_returns].
  - apply (serve_status gateway_statuses);
      [now left | now (right; right; right)
      | apply search_videos_replies | apply search_videos_returns].
  - apply (serve_status gateway_statuses);
      [now left | now (right; right; right)
      | apply video_qa_replies | apply video_qa_returns].
Qed.

(** ** What analyze-video writes *)

(** The three shapes of a run: nothing written; the segments written and the
    update refused; both written. *)
Lemma analyze_effect_cases w req db :
  let (resp, db') := serve_analyze_video w req db in
  db' = db \/
  (exists videoId segments,
     db' = insert_segments (segmentRecords w videoId segments) db /\
     status resp = 500) \/
  (exists videoId segments,
     db' = update_video videoId ready (duration_seconds segments)
             (insert_segments (segmentRecords w videoId segments) db) /\
     resp = json_response 200
              (BodyAnalyzed (length (segmentRecords w videoId segments)))).
Proof.
  unfold serve_analyze_video, serve.
  destruct (String.eqb (method req) "OPTIONS"); [now left|].
  destruct (payload req) as [msg|b]; [now left|].
  unfold analyze_video.
  destruct (JS.or_null (a_videoId b)) as [videoId|]; [|now left].
  destruct (JS.or_null (a_videoUrl b)); [|now left].
  unfold mbind at 1. unfold Eff_bind at 1.
  unfold throw_if. destruct (JS.falsy_str (LOVABLE_API_KEY w)); [now left|].
  cbn [mret Eff_ret]. unfold mbind at 1. unfold Eff_bind at 1.
  pose proof (read_only_gateway_content w false db) as Hro.
  destruct (gateway_content w false db) as [[c|r|e] db1] eqn:E;
    cbn in Hro; subst db1; [|now left|now left].
  unfold mbind, Eff_bind, db_call.
  destruct (db_error w InsertSegments); [now left|].
  destruct (db_error w UpdateVideo); cbn.
  - right. left. eauto.
  - right. right. eauto.
Qed.

Lemma update_video_ids videoId s d db :
  map v_id (videos (update_video videoId s d db)) = map v_id (videos db).
Proof.
  unfold update_video. cbn. rewrite map_map. apply map_ext.
  intros v. now destruct (String.eqb (v_id v) videoId).
Qed.

(** X9.  The handler analyze-video only adds.  It keeps the segments that are there, never
    touches the history, neither creates nor deletes a video, and a video it
    changes is ready afterwards; with a response other than 200 every video
    is as it was, so a failed analysis does not mark the video failed. *)
Theorem analyze_only_adds (w : World) (req : Request AnalyzeBody) (db : DB) :
  let (resp, db') := serve_analyze_video w req db in
  video_qa_history db' = video_qa_history db /\
  (exists new, video_segments db' = (video_segments db ++ new)%list) /\
  map v_id (videos db') = map v_id (videos db) /\
  (forall v, In v (videos db') -> In v (videos db) \/ v_status v = ready) /\
  (status resp <> 200 -> videos db' = videos db).
Proof.
  pose proof (analyze_effect_cases w req db) as H.
  destruct (serve_analyze_video w req db) as [resp db'].
  destruct H as [->|[(videoId & segs & -> & _)|(videoId & segs & -> & ->)]].
  - repeat split; auto. exists []. now rewrite app_nil_r.
  - cbn. repeat split; eauto.
  - split; [reflexivity|]. split; [eexists; reflexivity|].
    split; [exact (update_video_ids _ _ _ (insert_segments _ db))|].
    split; [|cbn; congruence].
    intros v Hv.
    apply update_video_row in Hv as [(v0 & _ & _ & _ & Hs & _)|[Hv _]];
      [now right | now left].
Qed.

(** X10.  There is no rollback.  When the insert succeeds and the update of the
    video is refused, the answer is 500 with the update's error, the segments
    stay in the table and the video is as it was. *)
Theorem analyze_update_failure_keeps_segments
    (w : World) (req : Request AnalyzeBody) (b : AnalyzeBody)
    (videoId : string) (st : Z) (content : option string) (db : DB)
    (msg : string) :
  method req <> "OPTIONS" ->
  payload req = Json b ->
  JS.or_null (a_videoId b) = Some videoId ->
  JS.falsy_str (a_videoUrl b) = false ->
  JS.falsy_str (LOVABLE_API_KEY w) = false ->
  gateway w = GwResponse st (GwContent content) ->
  gw_ok st = true ->
  db_error w InsertSegments = None ->
  db_error w UpdateVideo = Some msg ->
  let (resp, db') := serve_analyze_video w req db in
  resp = json_response 500 (BodyError msg) /\
  video_segments db'
    = (video_segments db ++
       segmentRecords w videoId (parse_segments w (a_title b) content))%list /\
  videos db' = videos db.
Proof.
  intros Hm Hb Hid Hurl Hkey Hgw Hok Hi Hu.
  rewrite (analyze_run w req b videoId st content db Hm Hb Hid Hurl Hkey Hgw Hok).
  cbv zeta. rewrite Hi, Hu. repeat split.
Qed.

(** X11.  On a failed gateway response analyze-video answers 500, with its own
    message for 429 and for 402, and writes nothing. *)
Theorem analyze_gateway_failure
    (w : World) (req : Request AnalyzeBody) (b : AnalyzeBody)
    (st : Z) (gb : GatewayBody) (db : DB) :
  method req <> "OPTIONS" ->
  payload req = Json b ->
  JS.falsy_str (a_videoId b) = false ->
  JS.falsy_str (a_videoUrl b) = false ->
  JS.falsy_str (LOVABLE_API_KEY w) = false ->
  gateway w = GwResponse st gb ->
  gw_ok st = false ->
  serve_analyze_video w req db =
    (json_response 500
       (BodyError
          (if (st =? 429)%Z then "Rate limited. Please try again later."
           else if (st =? 402)%Z
                then "Payment required. Please add funds to your workspace."
                else "AI gateway error: " ++ JS.toString st)),
     db).
Proof.
  intros Hm Hb Hid Hurl Hkey Hgw Hbad.
  unfold serve_analyze_video. rewrite (serve_json _ _ _ _ Hm Hb).
  unfold analyze_video.
  destruct (a_videoId b) as [[|c i]|]; try discriminate.
  destruct (a_videoUrl b) as [[|c' u]|]; try discriminate.
  cbn [JS.or_null].
  rewrite (bind_next (throw_if _ _) _ db tt db)
    by (unfold throw_if; rewrite Hkey; reflexivity).
  unfold mbind, Eff_bind, gateway_content. rewrite Hgw, Hbad. cbn [negb].
  destruct (st =? 429)%Z; [reflexivity|].
  destruct (st =? 402)%Z; reflexivity.
Qed.

Lemma analyze_update_failure_keeps_segments_witness :
  let (resp, db') :=
    serve_analyze_video (refusing UpdateVideo prose_world) analyze_request
      sample_db in
  resp = json_response 500 (BodyError "permission denied") /\
  length (video_segments db') = 4%nat /\
  videos db' = [sample_video].
Proof.
  pose proof (analyze_update_failure_keeps_segments
    (refusing UpdateVideo prose_world) analyze_request _ "v1" 200 _ sample_db
    "permission denied" ltac:(discriminate) eq_refl eq_refl eq_refl eq_refl
    eq_refl eq_refl eq_refl eq_refl) as H.
  destruct (serve_analyze_video (refusing UpdateVideo prose_world)
              analyze_request sample_db) as [resp db'].
  destruct H as (Hr & Hs & Hv). split; [exact Hr|]. split; [|exact Hv].
  rewrite Hs. reflexivity.
Defined.

Lemma analyze_gateway_failure_witness :
  serve_analyze_video rate_limited_world analyze_request sample_db
  = (json_response 500 (BodyError "Rate limited. Please try again later."),
     sample_db).
Proof.
  apply (analyze_gateway_failure rate_limited_world analyze_request _ 429
           (GwContent None) sample_db ltac:(discriminate) eq_refl eq_refl
           eq_refl eq_refl eq_refl eq_refl).
Defined.

(** ** The records analyze-video inserts *)

Lemma segmentRecords_In w videoId segments r :
  In r (segmentRecords w videoId segments) ->
  exists i s, segments !! i = Some s /\
              s_video_id r = videoId /\
              s_timestamp_seconds r
                = JS.or_num (p_timestamp_seconds s) (Z.of_nat i * 30) /\
              s_timestamp_display r = formatTimestamp (s_timestamp_seconds r) /\
              s_description r
                = Some (JS.or_str (p_description s) "Video segment") /\
              s_ocr_text r = JS.or_null (p_ocr_text s) /\
              s_transcript r = JS.or_null (p_transcript s) /\
              s_detected_objects r = Some (default ∅ (p_detected_objects s)) /\
              s_confidence_score r
                = ((85 # 100) + Math_random w i * (15 # 100))%Q.
Proof.
  intros Hr. apply list_elem_of_In in Hr. unfold segmentRecords in Hr.
  apply elem_of_lookup_imap in Hr as (i & s & -> & Hs).
  exists i, s. cbn. repeat split; auto.
Qed.

(** X12.  The records are normalised.  There is one per parsed segment; each
    carries the video's id and the display string of its own timestamp; its
    description is never empty, its OCR text and transcript are NULL rather
    than empty, and its detected objects are never NULL. *)
Theorem segmentRecords_normalised
    (w : World) (videoId : string) (segments : list ParsedSegment) :
  length (segmentRecords w videoId segments) = length segments /\
  forall r, In r (segmentRecords w videoId segments) ->
    s_video_id r = videoId /\
    s_timestamp_display r = formatTimestamp (s_timestamp_seconds r) /\
    (exists d, s_description r = Some d /\ d <> EmptyString) /\
    s_ocr_text r <> Some EmptyString /\
    s_transcript r <> Some EmptyString /\
    is_Some (s_detected_objects r).
Proof.
  split; [apply length_imap|].
  intros r Hr.
  apply segmentRecords_In in Hr
    as (i & s & _ & Hid & _ & Hdisp & Hdesc & Hocr & Htr & Hobj & _).
  split; [exact Hid|]. split; [exact Hdisp|].
  split; [|split; [|split]].
  - rewrite Hdesc. eexists. split; [reflexivity|].
    destruct (p_description s) as [[|c d]|]; discriminate.
  - rewrite Hocr. destruct (p_ocr_text s) as [[|c d]|]; discriminate.
  - rewrite Htr. destruct (p_transcript s) as [[|c d]|]; discriminate.
  - rewrite Hobj. eauto.
Qed.

(** X13.  For a reply whose timestamps are whole numbers of seconds t with
    0 <= t <= 2^53 - 1, and with at most (2^53 - 1) / 30 segments: every
    inserted timestamp is such a whole number too, and the display string of
    every record is read back by the client as the record's timestamp.
    (A timestamp with a fraction, which the NUMERIC column would store as it
    is, is not covered.) *)
Theorem segmentRecords_display_parses
    (w : World) (videoId : string) (segments : list ParsedSegment) :
  (forall s t, In s segments -> p_timestamp_seconds s = Some t ->
               0 <= t <= MAX_SAFE_INTEGER) ->
  Z.of_nat (length segments) * 30 <= MAX_SAFE_INTEGER ->
  forall r, In r (segmentRecords w videoId segments) ->
    0 <= s_timestamp_seconds r <= MAX_SAFE_INTEGER /\
    parseTimestamp (s_timestamp_display r) = Some (s_timestamp_seconds r) /\
    handleTimestampClick (s_timestamp_display r)
      = Some (s_timestamp_seconds r).
Proof.
  intros Hpos Hlen r Hr.
  apply segmentRecords_In in Hr as (i & s & Hs & _ & Hts & Hdisp & _).
  assert (Hb : 0 <= s_timestamp_seconds r <= MAX_SAFE_INTEGER).
  { rewrite Hts. pose proof (lookup_lt_Some _ _ _ Hs) as Hi.
    apply list_elem_of_lookup_2, list_elem_of_In in Hs.
    specialize (Hpos s).
    destruct (p_timestamp_seconds s) as [[|p|p]|]; cbn [JS.or_num];
      try specialize (Hpos _ Hs eq_refl); lia. }
  assert (H0 : 0 <= s_timestamp_seconds r) by lia.
  split; [exact Hb|]. rewrite Hdisp.
  unfold parseTimestamp, handleTimestampClick.
  rewrite (colon_parts_format_any _ H0). cbn.
  rewrite hms_sum by lia. split; reflexivity.
Qed.

Lemma segmentRecords_display_parses_witness :
  Forall (fun r => parseTimestamp (s_timestamp_display r)
                   = Some (s_timestamp_seconds r))
    (segmentRecords prose_world "v1" (fallback_segments None)).
Proof.
  apply List.Forall_forall. intros r Hr.
  apply (segmentRecords_display_parses prose_world "v1"
           (fallback_segments None)); [|vm_compute; discriminate|exact Hr].
  intros s t [<-|[<-|[<-|[<-|[]]]]] [= <-]; unfold MAX_SAFE_INTEGER; lia.
Defined.

(** X14.  With [Math.random] in [0, 1), every confidence score is at least
    0.85 and at most 1.  (The upper bound is not strict: the exact sum is
    below 1, and the rounding to a double, which keeps both bounds, can
    give 1.) *)
Theorem segmentRecords_confidence
    (w : World) (videoId : string) (segments : list ParsedSegment) :
  (forall i, (0 <= Math_random w i)%Q /\ (Math_random w i < 1)%Q) ->
  forall r, In r (segmentRecords w videoId segments) ->
    (85 # 100 <= s_confidence_score r)%Q /\ (s_confidence_score r <= 1)%Q.
Proof.
  intros Hrand r Hr.
  apply segmentRecords_In in Hr as (i & s & _ & _ & _ & _ & _ & _ & _ & _ & ->).
  destruct (Hrand i) as [H0 H1].
  destruct (Math_random w i) as [n d].
  unfold Qle, Qlt in *. cbn in *. nia.
Qed.

Lemma segmentRecords_confidence_witness :
  Forall (fun r => (85 # 100 <= s_confidence_score r)%Q /\
                   (s_confidence_score r <= 1)%Q)
    (segmentRecords prose_world "v1" (fallback_segments None)).
Proof.
  apply List.Forall_forall.
  apply (segmentRecords_confidence prose_world "v1" (fallback_segments None)).
  intros i. split; [discriminate | reflexivity].
Defined.

(** ** What search-videos returns *)

Lemma select_segments_In videoId db j :
  In j (select_segments videoId db) <->
  In (seg j) (video_segments db) /\
  List.find (fun v => String.eqb (v_id v) (s_video_id (seg j))) (videos db)
    = Some (seg_videos j) /\
  is_ready (seg_videos j) = true /\
  match JS.or_null videoId with
  | Some id => s_video_id (seg j) = id
  | None => True
  end.
Proof.
  unfold select_segments. rewrite in_flat_map. split.
  - intros (s & Hs & Hj).
    destruct (List.find _ (videos db)) as [v|] eqn:Ef; [|destruct Hj].
    destruct (is_ready v) eqn:Er; [|destruct Hj]. cbn [andb] in Hj.
    destruct (JS.or_null videoId) as [id|].
    + destruct (String.eqb_spec (s_video_id s) id) as [Hid|]; [|destruct Hj].
      destruct Hj as [<-|[]]. cbn. auto.
    + destruct Hj as [<-|[]]. cbn. auto.
  - intros (Hs & Hf & Hr & Hid). exists (seg j). split; [exact Hs|].
    rewrite Hf, Hr. cbn [andb].
    destruct (JS.or_null videoId) as [id|].
    + rewrite Hid, String.eqb_refl. left. now destruct j.
    + left. now destruct j.
Qed.

Lemma segment_at_In segments i s :
  segment_at segments i = Some s -> In s segments.
Proof.
  unfold segment_at. destruct (0 <=? i)%Z; [|discriminate].
  intros H. now apply list_elem_of_lookup_2, list_elem_of_In in H.
Qed.

Lemma gateway_content_reply_body w answered db r db' :
  gateway_content w answered db = (Reply r, db') ->
  exists msg, body r = BodyError msg.
Proof.
  unfold gateway_content.
  destruct (gateway w) as [msg|st [msg|c]]; try discriminate;
    destruct (gw_ok st); cbn; try discriminate;
    destruct (st =? 429)%Z; destruct answered; try discriminate;
    try (intros [= <- <-]; cbn; eauto);
    destruct (st =? 402)%Z; try discriminate;
    intros [= <- <-]; cbn; eauto.
Qed.

(** A response with results comes from a run through the whole handler. *)
Lemma search_results_inv w req db results :
  body (fst (serve_search_videos w req db)) = BodyResults results ->
  exists b query c rankings,
    payload req = Json b /\
    JS.or_null (sb_query b) = Some query /\
    apply_object_filter (sb_filters b) (select_segments (sb_videoId b) db)
      (parse_rankings w query (select_segments (sb_videoId b) db) c) db
      = (Next rankings, db) /\
    build_results (select_segments (sb_videoId b) db) rankings = Some results.
Proof.
  unfold serve_search_videos, serve.
  destruct (String.eqb (method req) "OPTIONS"); [discriminate|].
  destruct (payload req) as [msg|b]; [discriminate|].
  unfold search_videos.
  destruct (JS.or_null (sb_query b)) as [query|] eqn:Eq; [|discriminate].
  unfold mbind at 1. unfold Eff_bind at 1.
  unfold throw_if. destruct (JS.falsy_str (LOVABLE_API_KEY w)); [discriminate|].
  cbn [mret Eff_ret]. unfold mbind at 1. unfold Eff_bind at 1.
  unfold db_read. destruct (db_error w SelectSegments); [discriminate|].
  set (segments := select_segments (sb_videoId b) db).
  destruct segments as [|s0 l] eqn:Es; [discriminate|]. rewrite <- Es.
  unfold mbind at 1. unfold Eff_bind at 1.
  pose proof (read_only_gateway_content w true db) as Hro.
  destruct (gateway_content w true db) as [[c|r|e] db1] eqn:Eg;
    cbn in Hro; subst db1; [| |discriminate].
  2:{ cbn. destruct (gateway_content_reply_body _ _ _ _ _ Eg) as [msg ->].
      discriminate. }
  unfold mbind at 1. unfold Eff_bind at 1.
  pose proof (read_only_apply_object_filter (sb_filters b) segments
                (parse_rankings w query segments c) db) as Hro.
  destruct (apply_object_filter _ _ _ db) as [[rankings|r|e] db1] eqn:Ef;
    cbn in Hro; subst db1; [| |discriminate].
  2:{ exfalso. revert Ef. unfold apply_object_filter, deref.
      destruct (_ ≫= _); [destruct (filter_by_object _ _ _ _)|];
        discriminate. }
  unfold mbind, Eff_bind, deref.
  destruct (build_results segments rankings) as [res|] eqn:Eb; [|discriminate].
  cbn. intros [= <-]. exists b, query, c, rankings. repeat split; auto.
Qed.

(** X15.  Every result is a segment of the database joined to its video, which
    is ready; it carries that segment's and that video's fields; and when the
    request names a video, it is a segment of that video. *)
Theorem search_results_are_ready_segments
    (w : World) (req : Request SearchBody) (db : DB)
    (results : list SearchResult) :
  body (fst (serve_search_videos w req db)) = BodyResults results ->
  forall res, In res results ->
    exists s v,
      In s (video_segments db) /\ In v (videos db) /\
      v_id v = s_video_id s /\ v_status v = ready /\
      r_id res = s_id s /\ r_video_id res = s_video_id s /\
      r_video_title res = v_title v /\
      r_video_path res = v_storage_path v /\
      r_timestamp_seconds res = s_timestamp_seconds s /\
      r_timestamp_display res = s_timestamp_display s /\
      (forall b id, payload req = Json b ->
                    JS.or_null (sb_videoId b) = Some id ->
                    r_video_id res = id).
Proof.
  intros Hbody res Hres.
  apply search_results_inv in Hbody as (b & query & c & rankings & Hb & _ & _ & Hbuild).
  unfold build_results in Hbuild. apply mapM_Some in Hbuild.
  apply list_elem_of_In, list_elem_of_lookup_1 in Hres as [k Hk].
  destruct (Forall2_lookup_r _ _ _ _ _ Hbuild Hk) as (rank & _ & Hrank).
  destruct (segment_at _ (index rank)) as [j|] eqn:Ej; [|discriminate].
  cbn in Hrank. injection Hrank as <-.
  apply segment_at_In, select_segments_In in Ej as (Hs & Hf & Hr & Hid).
  exists (seg j), (seg_videos j).
  pose proof (find_some _ _ Hf) as [Hv Heq]. apply String.eqb_eq in Heq.
  unfold is_ready in Hr.
  repeat split; auto.
  - now destruct (v_status (seg_videos j)).
  - intros b' id Hb' Hid'. rewrite Hb in Hb'. injection Hb' as <-.
    rewrite Hid' in Hid. exact Hid.
Qed.

Lemma search_results_are_ready_segments_witness :
  exists s v,
    In s (video_segments library_db) /\ In v (videos library_db) /\
    v_status v = ready /\ s_id s = Some "s1" /\ v_title v = "Demo".
Proof.
  destruct (search_results_are_ready_segments silent_world
              (search_request "person" None) library_db
              [build_result
                 {| seg := street_segment; seg_videos := ready_video |}
                 {| index := 0; relevance_score := (1 # 1)%Q;
                    reason := Some "Keyword matching fallback" |}]
              ltac:(vm_compute; reflexivity) _ (or_introl eq_refl))
    as (s & v & Hs & Hv & _ & Hready & Hid & _ & Htitle & _).
  exists s, v. cbn in Hid, Htitle. auto.
Defined.

(** X16.  With no segment of a ready video to search, the answer is 200 with
    the "No indexed content found" body, and the gateway is not asked: the
    answer is the same when the gateway is down. *)
Theorem search_nothing_indexed
    (w : World) (req : Request SearchBody) (b : SearchBody) (db : DB) :
  method req <> "OPTIONS" ->
  payload req = Json b ->
  JS.falsy_str (sb_query b) = false ->
  JS.falsy_str (LOVABLE_API_KEY w) = false ->
  db_error w SelectSegments = None ->
  select_segments (sb_videoId b) db = [] ->
  serve_search_videos w req db = (json_response 200 BodyNoContent, db).
Proof.
  intros Hm Hb Hq Hkey Hsel Hnone.
  unfold serve_search_videos. rewrite (serve_json _ _ _ _ Hm Hb).
  unfold search_videos.
  destruct (sb_query b) as [[|c q]|]; try discriminate. cbn [JS.or_null].
  rewrite (bind_next (throw_if _ _) _ db tt db)
    by (unfold throw_if; rewrite Hkey; reflexivity).
  rewrite (bind_next (db_read w SelectSegments _) _ db [] db)
    by (unfold db_read; rewrite Hsel, Hnone; reflexivity).
  reflexivity.
Qed.

Lemma search_nothing_indexed_witness :
  serve_search_videos offline_world (search_request "person" None) sample_db
  = (json_response 200 BodyNoContent, sample_db).
Proof.
  apply (search_nothing_indexed offline_world (search_request "person" None)
           _ sample_db ltac:(discriminate) eq_refl eq_refl eq_refl eq_refl
           eq_refl).
Defined.

Lemma filter_by_object_None name min segments rankings rank :
  In rank rankings -> segment_at segments (index rank) = None ->
  filter_by_object name min segments rankings = None.
Proof.
  induction rankings as [|r rest IH]; cbn; [tauto|].
  intros [->|Hin] Hnone.
  - now rewrite Hnone.
  - destruct (segment_at segments (index r)); [|reflexivity]. cbn.
    now rewrite (IH Hin Hnone).
Qed.

Lemma build_results_None segments rankings rank :
  In rank rankings -> segment_at segments (index rank) = None ->
  build_results segments rankings = None.
Proof.
  intros Hin Hnone. unfold build_results. apply mapM_None.
  apply List.Exists_exists. exists rank. split; [exact Hin|].
  now rewrite Hnone.
Qed.

(** X17.  A ranking that points outside the fetched segments fails the whole
    search: the answer is 500, with or without an object filter. *)
Theorem search_index_out_of_range
    (w : World) (req : Request SearchBody) (b : SearchBody)
    (query : string) (st : Z) (content : option string) (db : DB)
    (rank : Ranking) :
  method req <> "OPTIONS" ->
  payload req = Json b ->
  JS.or_null (sb_query b) = Some query ->
  JS.falsy_str (LOVABLE_API_KEY w) = false ->
  db_error w SelectSegments = None ->
  select_segments (sb_videoId b) db <> [] ->
  gateway w = GwResponse st (GwContent content) ->
  gw_ok st = true ->
  In rank (parse_rankings w query (select_segments (sb_videoId b) db) content) ->
  segment_at (select_segments (sb_videoId b) db) (index rank) = None ->
  status (fst (serve_search_videos w req db)) = 500 /\
  exists msg, body (fst (serve_search_videos w req db)) = BodyError msg.
Proof.
  intros Hm Hb Hq Hkey Hsel Hsome Hgw Hok Hin Hnone.
  rewrite (search_run w req b query db Hm Hb Hq Hkey Hsel Hsome). cbv zeta.
  rewrite (gateway_content_ok _ _ _ _ Hgw Hok), bind_mret.
  unfold apply_object_filter.
  destruct (sb_filters b ≫= _) as [name|].
  - rewrite (filter_by_object_None _ _ _ _ _ Hin Hnone).
    cbn. split; eauto.
  - rewrite bind_mret. rewrite (build_results_None _ _ _ Hin Hnone).
    cbn. split; eauto.
Qed.

Lemma search_index_out_of_range_witness :
  status (fst (serve_search_videos stray_world (search_request "person" None)
                 library_db)) = 500.
Proof.
  apply (search_index_out_of_range stray_world (search_request "person" None)
           _ "person" 200 (Some stray_reply) library_db (rank_of 7)
           ltac:(discriminate) eq_refl eq_refl eq_refl eq_refl
           ltac:(vm_compute; discriminate) eq_refl eq_refl
           ltac:(vm_compute; left; reflexivity) eq_refl).
Defined.

(** *** The fallback scorer, continued *)

Lemma split_spaces_nonempty s : JS.split_spaces s <> [].
Proof.
  induction s as [|c s IH]; cbn; [discriminate|].
  destruct (JS.is_space c).
  - destruct s as [|c' s]; [discriminate|].
    destruct (JS.is_space c'); [exact IH | discriminate].
  - destruct (JS.split_spaces s); discriminate.
Qed.

(** X18.  A keyword score is a fraction between 0 and 1. *)
Theorem keyword_score_bounds (query : string) (s : Segment) :
  (0 <= keyword_score query s)%Q /\ (keyword_score query s <= 1)%Q.
Proof.
  unfold keyword_score. cbv zeta.
  set (words := JS.split_spaces (JS.toLowerCase query)).
  set (hits := List.filter _ words).
  assert (Hle : (length hits <= length words)%nat) by apply List.filter_length_le.
  assert (Hpos : (0 < length words)%nat).
  { pose proof (split_spaces_nonempty (JS.toLowerCase query)).
    fold words in H. destruct words; [congruence | cbn; lia]. }
  destruct (Z.of_nat (length words)) as [|p|p] eqn:Ep; try lia.
  unfold Qle, Qdiv, Qmult, Qinv, inject_Z. cbn. split; nia.
Qed.

Lemma fallback_rankings_unfold query segments :
  fallback_rankings query segments =
  take 10 (sort_desc
             (List.filter (fun r => Qgtb (relevance_score r) (3 # 10))
                (imap (keyword_ranking query) segments))).
Proof. reflexivity. Qed.

Lemma imap_index_sorted (f : nat -> JoinedSegment -> Ranking) k l :
  (forall i s, index (f i s) = Z.of_nat (k + i)) ->
  StronglySorted index_lt (imap f l) /\
  Forall (fun x => Z.of_nat k <= index x) (imap f l).
Proof.
  revert f k. induction l as [|s l IH]; intros f k Hf; cbn.
  - split; constructor.
  - destruct (IH (f ∘ S) (S k)) as [Hs Hall].
    { intros i s'. cbn. rewrite Hf. f_equal. lia. }
    split.
    + constructor; [exact Hs|].
      eapply Forall_impl; [exact Hall|]. intros x Hx. unfold index_lt.
      rewrite Hf. cbn in *. lia.
    + constructor; [rewrite Hf; lia|].
      eapply Forall_impl; [exact Hall|]. cbn. intros x Hx. lia.
Qed.

Lemma StronglySorted_filter_list {A} (R : A -> A -> Prop) f l :
  StronglySorted R l -> StronglySorted R (List.filter f l).
Proof.
  induction 1 as [|a l Hs IH Hall]; cbn; [constructor|].
  destruct (f a); [|exact IH]. constructor; [exact IH|].
  apply List.Forall_forall. intros x Hx. apply filter_In in Hx as [Hx _].
  rewrite List.Forall_forall in Hall. now apply Hall.
Qed.

Lemma insert_desc_ranks r l :
  Sorted ranks_before l ->
  Forall (index_lt r) l ->
  Sorted ranks_before (insert_desc r l).
Proof.
  induction 1 as [|r' l Hs IH Hhd]; intros Hall; cbn; [repeat constructor|].
  apply Forall_cons in Hall as [Hr' Hall].
  destruct (Qgtb (relevance_score r') (relevance_score r)) eqn:E.
  - apply Qgtb_true in E. constructor; [now apply IH|].
    destruct l as [|r'' l]; cbn.
    + constructor. now left.
    + destruct (Qgtb (relevance_score r'') (relevance_score r));
        constructor; [now inversion Hhd | now left].
  - apply Qgtb_false in E. constructor; [now constructor|].
    constructor. apply Qle_lt_or_eq in E as [E|E]; [now left|].
    right. split; [now symmetry | exact Hr'].
Qed.

Lemma sort_desc_ranks l :
  StronglySorted index_lt l -> Sorted ranks_before (sort_desc l).
Proof.
  induction 1 as [|r l Hs IH Hall]; cbn; [constructor|].
  apply insert_desc_ranks; [exact IH|].
  apply List.Forall_forall. intros x Hx.
  apply (proj1 (sort_desc_In l x)) in Hx.
  rewrite List.Forall_forall in Hall. now apply Hall.
Qed.

Lemma Sorted_take {A} (R : A -> A -> Prop) n l :
  Sorted R l -> Sorted R (take n l).
Proof.
  revert l. induction n as [|n IH]; intros l Hl; [constructor|].
  destruct l as [|a l]; [constructor|]. cbn.
  apply Sorted_inv in Hl as [Hs Hhd].
  constructor; [now apply IH|].
  destruct n; [constructor|].
  destruct l; cbn; [constructor|]. constructor. now inversion Hhd.
Qed.

(** X19.  The fallback list is in the order of a stable sort: scores descend,
    and segments with the same score keep the order they were fetched in. *)
Theorem fallback_rankings_stable (query : string) (segments : list JoinedSegment) :
  Sorted ranks_before (fallback_rankings query segments).
Proof.
  rewrite fallback_rankings_unfold.
  apply Sorted_take, sort_desc_ranks, StronglySorted_filter_list.
  apply (imap_index_sorted (keyword_ranking query) 0 segments).
  reflexivity.
Qed.

Lemma score_ge_trans a b c : score_ge a b -> score_ge b c -> score_ge a c.
Proof. unfold score_ge. intros Hab Hbc. eapply Qle_trans; eauto. Qed.

Lemma Sorted_score_app l1 l2 a b :
  Sorted score_ge (l1 ++ l2) -> In a l1 -> In b l2 -> score_ge a b.
Proof.
  intros Hs. apply Sorted_StronglySorted in Hs;
    [|intros x y z; apply score_ge_trans].
  induction l1 as [|x l1 IH]; cbn in *; [tauto|].
  apply StronglySorted_inv in Hs as [Hs Hall].
  intros [<-|Ha] Hb; [|now apply IH].
  rewrite List.Forall_forall in Hall. apply Hall, in_or_app. now right.
Qed.

Lemma sort_desc_length l : length (sort_desc l) = length l.
Proof.
  assert (Hins : forall r k, length (insert_desc r k) = S (length k)).
  { intros r k. induction k as [|r' k IH]; cbn; [reflexivity|].
    destruct (Qgtb _ _); cbn; [now rewrite IH | reflexivity]. }
  induction l as [|r l IH]; cbn; [reflexivity|].
  now rewrite Hins, <- IH.
Qed.

(** X20.  The cut at 10 keeps the best.  A segment that scores above 0.3 is in
    the fallback list, unless the list is full with 10 entries that all
    score at least as high. *)
Theorem fallback_rankings_keep_best
    (query : string) (segments : list JoinedSegment)
    (i : nat) (s : JoinedSegment) :
  segments !! i = Some s ->
  (3 # 10 < keyword_score query (seg s))%Q ->
  In (keyword_ranking query i s) (fallback_rankings query segments) \/
  (length (fallback_rankings query segments) = 10%nat /\
   forall r, In r (fallback_rankings query segments) ->
             (keyword_score query (seg s) <= relevance_score r)%Q).
Proof.
  intros Hs Hgt. rewrite fallback_rankings_unfold.
  set (passing := List.filter _ (imap (keyword_ranking query) segments)).
  assert (Hin : In (keyword_ranking query i s) (sort_desc passing)).
  { apply sort_desc_In, filter_In. split.
    - apply list_elem_of_In, elem_of_lookup_imap. eauto.
    - now apply Qgtb_true. }
  rewrite <- (take_drop 10 (sort_desc passing)) in Hin.
  apply in_app_or in Hin as [Hin|Hin]; [now left|]. right.
  pose proof (sort_desc_Sorted passing) as Hsorted.
  rewrite <- (take_drop 10 (sort_desc passing)) in Hsorted.
  split.
  - rewrite length_take.
    destruct (drop 10 (sort_desc passing)) eqn:Ed; [destruct Hin|].
    assert (length (drop 10 (sort_desc passing)) <> 0)%nat
      by (rewrite Ed; discriminate).
    rewrite length_drop in H. lia.
  - intros r Hr.
    exact (Sorted_score_app _ _ r (keyword_ranking query i s) Hsorted Hr Hin).
Qed.

Lemma fallback_rankings_keep_best_witness :
  In (keyword_ranking "car" 2
        {| seg := parking_segment; seg_videos := ready_video |})
     (fallback_rankings "car" (select_segments None library_db)) \/
  length (fallback_rankings "car" (select_segments None library_db)) = 10%nat.
Proof.
  destruct (fallback_rankings_keep_best "car"
              (select_segments None library_db) 2
              {| seg := parking_segment; seg_videos := ready_video |}
              eq_refl eq_refl) as [H|[H _]]; [now left | now right].
Defined.

Lemma fallback_segment_at query segments r :
  In r (fallback_rankings query segments) ->
  is_Some (segment_at segments (index r)).
Proof.
  intros Hr.
  destruct (fallback_rankings_spec query segments) as (_ & _ & H).
  destruct (H r Hr) as (_ & i & s & Hs & Hi & _).
  unfold segment_at. rewrite Hi.
  destruct (Z.leb_spec 0 (Z.of_nat i)); [|lia].
  rewrite Nat2Z.id. eauto.
Qed.

Lemma fallback_reason query segments r :
  In r (fallback_rankings query segments) ->
  reason r = Some "Keyword matching fallback".
Proof.
  intros Hr. apply In_take, sort_desc_In, filter_In in Hr as [Hr _].
  apply list_elem_of_In, elem_of_lookup_imap in Hr as (i & s & -> & _).
  reflexivity.
Qed.

Lemma build_results_Some segments rankings :
  (forall r, In r rankings -> is_Some (segment_at segments (index r))) ->
  exists results,
    build_results segments rankings = Some results /\
    length results = length rankings /\
    forall res, In res results ->
      exists r, In r rankings /\
                r_relevance_score res = relevance_score r /\
                r_relevance_reason res = reason r.
Proof.
  induction rankings as [|r rest IH]; intros H.
  - exists []. split; [reflexivity|]. split; [reflexivity|]. intros res [].
  - destruct IH as (results & Hb & Hl & Hres); [intros; apply H; now right|].
    destruct (H r) as [s Hs]; [now left|].
    exists (build_result s r :: results). unfold build_results in *.
    cbn. rewrite Hs. cbn. rewrite Hb. cbn. split; [reflexivity|].
    split; [now rewrite Hl|].
    intros res [<-|Hin].
    + exists r. repeat split. now left.
    + destruct (Hres res Hin) as (r' & Hr' & ?). exists r'. split; [now right | auto].
Qed.

(** X21.  When the fallback scorer runs (the content of the reply is missing, or
    JSON.parse throws on its array), the search succeeds: the answer is 200
    with at most 10 results, each with a score above 0.3 and the reason
    "Keyword matching fallback", with or without an object filter. *)
Theorem search_fallback_succeeds
    (w : World) (req : Request SearchBody) (b : SearchBody)
    (query : string) (st : Z) (content : option string) (db : DB) :
  method req <> "OPTIONS" ->
  payload req = Json b ->
  JS.or_null (sb_query b) = Some query ->
  JS.falsy_str (LOVABLE_API_KEY w) = false ->
  db_error w SelectSegments = None ->
  select_segments (sb_videoId b) db <> [] ->
  gateway w = GwResponse st (GwContent content) ->
  gw_ok st = true ->
  content = None \/
  (exists c m, content = Some c /\ JS.match_delimited "[" "]" c = Some m /\
               JSON_parse_rankings w m = None) ->
  exists results,
    serve_search_videos w req db
      = (json_response 200 (BodyResults results), db) /\
    (length results <= 10)%nat /\
    forall res, In res results ->
      (3 # 10 < r_relevance_score res)%Q /\
      r_relevance_reason res = Some "Keyword matching fallback".
Proof.
  intros Hm Hb Hq Hkey Hsel Hsome Hgw Hok Hfail.
  rewrite (search_run w req b query db Hm Hb Hq Hkey Hsel Hsome). cbv zeta.
  rewrite (gateway_content_ok _ _ _ _ Hgw Hok), bind_mret.
  rewrite (parse_rankings_fallback _ _ _ _ Hfail).
  set (segments := select_segments (sb_videoId b) db).
  set (fb := fallback_rankings query segments).
  destruct (fallback_rankings_spec query segments) as (Hlen & _ & Hscore).
  fold fb in Hlen, Hscore.
  assert (Hkept : exists kept,
    apply_object_filter (sb_filters b) segments fb db = (Next kept, db) /\
    (length kept <= length fb)%nat /\ forall r, In r kept -> In r fb).
  { unfold apply_object_filter.
    destruct (sb_filters b ≫= _) as [name|]; [|exists fb; auto].
    destruct (filter_by_object_total name (sb_filters b ≫= minCount) segments fb)
      as [kept Hk]; [intros r Hr; now apply (fallback_segment_at query)|].
    exists kept. rewrite Hk. split; [reflexivity|].
    pose proof (filter_by_object_In _ _ _ _ _ Hk) as Hin. split.
    - clear -Hk. revert kept Hk. induction fb as [|r rest IH]; cbn; intros kept Hk.
      + injection Hk as <-. cbn. lia.
      + destruct (segment_at segments (index r)); [|discriminate]. cbn in Hk.
        destruct (filter_by_object name _ segments rest) as [rest'|];
          [|discriminate]. cbn in Hk. specialize (IH _ eq_refl).
        destruct (object_count_ok _ _ _); injection Hk as <-; cbn; lia.
    - intros r Hr. now apply Hin in Hr. }
  destruct Hkept as (kept & Hrun & Hklen & Hsub).
  rewrite (bind_next _ _ _ _ _ Hrun).
  destruct (build_results_Some segments kept) as (results & Hbuild & Hrlen & Hres).
  { intros r Hr. apply (fallback_segment_at query), Hsub, Hr. }
  exists results. unfold mbind, Eff_bind, deref. rewrite Hbuild. cbn.
  split; [reflexivity|]. split; [lia|].
  intros res Hin. destruct (Hres res Hin) as (r & Hr & -> & ->).
  apply Hsub in Hr. split; [apply (Hscore r Hr) | now apply (fallback_reason query segments)].
Qed.

Lemma search_fallback_succeeds_witness :
  exists results,
    serve_search_videos silent_world (search_request "person" None) library_db
      = (json_response 200 (BodyResults results), library_db) /\
    (length results <= 10)%nat.
Proof.
  destruct (search_fallback_succeeds silent_world
              (search_request "person" None) _ "person" 200 None library_db
              ltac:(discriminate) eq_refl eq_refl eq_refl eq_refl
              ltac:(vm_compute; discriminate) eq_refl eq_refl
              (or_introl eq_refl)) as (results & Hrun & Hlen & _).
  exists results. split; [exact Hrun | exact Hlen].
Defined.

(** *** The object filter, continued *)

Lemma filter_by_object_sublist name min segments rankings kept :
  filter_by_object name min segments rankings = Some kept ->
  sublist kept rankings.
Proof.
  revert kept. induction rankings as [|r rest IH]; cbn; intros kept H.
  - injection H as <-. constructor.
  - destruct (segment_at segments (index r)); [|discriminate]. cbn in H.
    destruct (filter_by_object name min segments rest) as [rest'|];
      [|discriminate]. cbn in H. specialize (IH _ eq_refl).
    destruct (object_count_ok _ _ _); injection H as <-;
      [now apply sublist_skip | now apply sublist_cons].
Qed.

(** X22.  The object filter only removes: what it keeps is a sublist of the
    rankings, in their order.  Without an object name it keeps everything,
    also when a minimum count is given. *)
Theorem object_filter_only_removes
    (filters : option SearchFilters) (segments : list JoinedSegment)
    (rankings kept : list Ranking) (db db' : DB) :
  apply_object_filter filters segments rankings db = (Next kept, db') ->
  sublist kept rankings /\
  (filters ≫= (fun f => JS.or_null (objectName f)) = None -> kept = rankings).
Proof.
  unfold apply_object_filter.
  destruct (filters ≫= _) as [name|].
  - destruct (filter_by_object _ _ _ _) as [k|] eqn:E; cbn; [|discriminate].
    intros [= <- <-]. split; [|discriminate].
    eapply filter_by_object_sublist, E.
  - cbn. intros [= <- <-]. split; reflexivity.
Qed.

Lemma object_filter_only_removes_witness :
  apply_object_filter (Some {| objectName := None; minCount := Some 5 |})
    (select_segments None library_db) [rank_of 0; rank_of 3] library_db
  = (Next [rank_of 0; rank_of 3], library_db) /\
  sublist [rank_of 0; rank_of 3] [rank_of 0; rank_of 3].
Proof.
  split; [reflexivity|].
  apply (object_filter_only_removes
           (Some {| objectName := None; minCount := Some 5 |})
           (select_segments None library_db) _ _ library_db library_db
           eq_refl).
Defined.

(** ** The extraction of the JSON text *)

Lemma upto_last_None c s :
  JS.upto_last c s = None <-> has_char c s = false.
Proof.
  induction s as [|a s IH]; cbn; [tauto|].
  destruct (JS.upto_last c s) as [t|].
  - split; [discriminate|]. intros H. apply orb_false_iff in H as [_ H].
    apply IH in H. discriminate.
  - destruct (Ascii.eqb a c); cbn; [split; discriminate|].
    split; intros _; [now apply IH | reflexivity].
Qed.

Lemma append_nil (s : string) : EmptyString ++ s = s.
Proof. reflexivity. Qed.

Lemma append_cons a (s t : string) : String a s ++ t = String a (s ++ t).
Proof. reflexivity. Qed.

Lemma upto_last_app c mid post :
  has_char c post = false ->
  JS.upto_last c (mid ++ String c post) = Some (mid ++ String c EmptyString).
Proof.
  intros Hp. induction mid as [|a mid IH].
  - rewrite !append_nil. cbn. apply upto_last_None in Hp. rewrite Hp.
    now rewrite Ascii.eqb_refl.
  - rewrite !append_cons. cbn. now rewrite IH.
Qed.

Lemma upto_last_Some c s t :
  JS.upto_last c s = Some t ->
  exists mid post,
    s = mid ++ String c post /\ t = mid ++ String c EmptyString /\
    has_char c post = false.
Proof.
  revert t. induction s as [|a s IH]; intros t; cbn; [discriminate|].
  destruct (JS.upto_last c s) as [t'|] eqn:E.
  - intros [= <-]. destruct (IH _ eq_refl) as (mid & post & -> & -> & Hp).
    exists (String a mid), post. auto.
  - destruct (Ascii.eqb_spec a c) as [->|]; [|discriminate].
    intros [= <-]. exists EmptyString, s. repeat split.
    now apply upto_last_None.
Qed.

Lemma match_delimited_app o c pre rest :
  has_char o pre = false ->
  JS.match_delimited o c (pre ++ String o rest)
  = String o <$> JS.upto_last c rest.
Proof.
  induction pre as [|a pre IH].
  - intros _. rewrite append_nil. cbn. now rewrite Ascii.eqb_refl.
  - rewrite append_cons. cbn. intros H.
    apply orb_false_iff in H as [-> H]. now apply IH.
Qed.

Lemma match_delimited_inv o c s :
  (has_char o s = false /\ JS.match_delimited o c s = None) \/
  exists pre rest,
    s = pre ++ String o rest /\ has_char o pre = false /\
    JS.match_delimited o c s = String o <$> JS.upto_last c rest.
Proof.
  induction s as [|a s IH]; cbn; [now left|].
  destruct (Ascii.eqb_spec a o) as [->|Hne].
  - right. exists EmptyString, s. auto.
  - destruct IH as [[Hn Hm]|(pre & rest & -> & Hpre & Hm)].
    + left. cbn. auto.
    + right. exists (String a pre), rest. cbn.
      apply Ascii.eqb_neq in Hne. rewrite Hne. auto.
Qed.

(** X23.  The text handed to JSON.parse runs from the first opening delimiter
    of the reply to the last closing delimiter after it; there is none
    exactly when the reply has no such pair. *)
Theorem match_delimited_spec (o c : ascii) (s m : string) :
  JS.match_delimited o c s = Some m <->
  exists pre mid post,
    s = pre ++ String o (mid ++ String c post) /\
    m = String o (mid ++ String c EmptyString) /\
    has_char o pre = false /\ has_char c post = false.
Proof.
  split.
  - intros H. destruct (match_delimited_inv o c s)
      as [[_ Hn]|(pre & rest & -> & Hpre & Hm)]; [congruence|].
    rewrite Hm in H. destruct (JS.upto_last c rest) as [t|] eqn:E;
      [|discriminate].
    injection H as <-.
    apply upto_last_Some in E as (mid & post & -> & -> & Hp).
    exists pre, mid, post. auto.
  - intros (pre & mid & post & -> & -> & Hpre & Hpost).
    rewrite (match_delimited_app _ _ _ _ Hpre), (upto_last_app _ _ _ Hpost).
    reflexivity.
Qed.

(** ** video-qa, continued *)

Section QARun.
Variables (w : World) (req : Request QABody) (b : QABody).
Variables (question videoId : string) (video : Video) (db : DB).
Hypothesis Hmethod : method req <> "OPTIONS".
Hypothesis Hbody : payload req = Json b.
Hypothesis Hquestion : JS.or_null (qa_question b) = Some question.
Hypothesis HvideoId : JS.or_null (qa_videoId b) = Some videoId.
Hypothesis Hkey : JS.falsy_str (LOVABLE_API_KEY w) = false.

(** The run up to the select of the video. *)
Lemma qa_run_select :
  serve_video_qa w req db =
    match
      (video ← select_video w videoId;
       segments ← db_read w SelectVideoSegments
         (fun db => List.filter (fun s => String.eqb (s_video_id s) videoId)
                      (video_segments db));
       reply_content ← gateway_content w true;
       let content := JS.or_str reply_content "" in
       let '(answer, relevantTimestamps) := parse_answer w content in
       save_history w
         {| q_video_id := videoId; q_question := question;
            q_answer := answer;
            q_relevant_timestamps := relevantTimestamps |};;
       mret (json_response 200 (BodyAnswer answer relevantTimestamps))) db
    with
    | (Next r, db') => (r, db')
    | (Reply r, db') => (r, db')
    | (Throw msg, db') => (json_response 500 (BodyError msg), db')
    end.
Proof.
  unfold serve_video_qa. rewrite (serve_json _ _ _ _ Hmethod Hbody).
  unfold video_qa. rewrite Hquestion, HvideoId.
  rewrite (bind_next (throw_if _ _) _ db tt db)
    by (unfold throw_if; rewrite Hkey; reflexivity).
  reflexivity.
Qed.

(** X24.  When the video cannot be read as exactly one row (the select fails,
    or no row or several rows have the id), video-qa answers 500 "Video not
    found" and writes nothing; the gateway is not asked. *)
Theorem qa_video_not_found :
  db_error w SelectVideo <> None \/
  (forall v, List.filter (fun v => String.eqb (v_id v) videoId) (videos db)
             <> [v]) ->
  serve_video_qa w req db
  = (json_response 500 (BodyError "Video not found"), db).
Proof.
  intros H. rewrite qa_run_select.
  unfold mbind at 1. unfold Eff_bind at 1. unfold select_video.
  set (rows := List.filter (fun v => String.eqb (v_id v) videoId) (videos db))
    in *.
  destruct H as [H|H].
  - destruct (db_error w SelectVideo); [|congruence].
    destruct rows as [|? [|? ?]]; reflexivity.
  - destruct (db_error w SelectVideo);
      destruct rows as [|v [|? ?]] eqn:E; try reflexivity.
    now specialize (H v).
Qed.

Hypothesis Hselect : db_error w SelectVideo = None.
Hypothesis Hvideo :
  List.filter (fun v => String.eqb (v_id v) videoId) (videos db) = [video].
Hypothesis Hsegments : db_error w SelectVideoSegments = None.

(** The run up to the gateway call. *)
Lemma qa_run :
  serve_video_qa w req db =
    match
      (reply_content ← gateway_content w true;
       let content := JS.or_str reply_content "" in
       let '(answer, relevantTimestamps) := parse_answer w content in
       save_history w
         {| q_video_id := videoId; q_question := question;
            q_answer := answer;
            q_relevant_timestamps := relevantTimestamps |};;
       mret (json_response 200 (BodyAnswer answer relevantTimestamps))) db
    with
    | (Next r, db') => (r, db')
    | (Reply r, db') => (r, db')
    | (Throw msg, db') => (json_response 500 (BodyError msg), db')
    end.
Proof.
  rewrite qa_run_select.
  rewrite (bind_next (select_video w videoId) _ db video db)
    by (unfold select_video; rewrite Hselect, Hvideo; reflexivity).
  erewrite (bind_next (db_read w SelectVideoSegments _) _ db _ db)
    by (unfold db_read; rewrite Hsegments; reflexivity).
  reflexivity.
Qed.

(** X25.  On a failed gateway response video-qa answers 429 for 429 and 402
    for 402 itself, and 500 with the gateway's status in the message for any
    other; it writes nothing. *)
Theorem qa_gateway_failure (st : Z) (gb : GatewayBody) :
  gateway w = GwResponse st gb ->
  gw_ok st = false ->
  serve_video_qa w req db =
    (if (st =? 429)%Z then
       json_response 429 (BodyError "Rate limited. Please try again later.")
     else if (st =? 402)%Z then
       json_response 402 (BodyError "Payment required. Please add funds.")
     else
       json_response 500 (BodyError ("AI gateway error: " ++ JS.toString st)),
     db).
Proof.
  intros Hgw Hbad. rewrite qa_run.
  unfold gateway_content. rewrite Hgw, Hbad. cbn [negb].
  unfold mbind, Eff_bind.
  destruct (st =? 429)%Z; [reflexivity|].
  destruct (st =? 402)%Z; reflexivity.
Qed.

(** X26.  The answer that is returned is the answer that is stored.  On an
    answer from the gateway the response is 200; when the history insert
    succeeds the history grows by one row, with the question, the video and
    exactly the answer and timestamps of the response; when it fails the
    response is the same and nothing is stored.  The answer is the parsed
    one when the reply holds a JSON object with a non-empty answer. *)
Theorem qa_answer_is_stored (st : Z) (reply_content : option string) :
  gateway w = GwResponse st (GwContent reply_content) ->
  gw_ok st = true ->
  exists answer timestamps,
    parse_answer w (JS.or_str reply_content "") = (answer, timestamps) /\
    fst (serve_video_qa w req db)
      = json_response 200 (BodyAnswer answer timestamps) /\
    videos (snd (serve_video_qa w req db)) = videos db /\
    video_segments (snd (serve_video_qa w req db)) = video_segments db /\
    video_qa_history (snd (serve_video_qa w req db))
      = match db_error w InsertHistory with
        | Some _ => video_qa_history db
        | None =>
            (video_qa_history db ++
             [ {| q_video_id := videoId; q_question := question;
                  q_answer := answer;
                  q_relevant_timestamps := timestamps |} ])%list
        end /\
    (forall m parsed a,
       JS.match_delimited "{" "}" (JS.or_str reply_content "") = Some m ->
       JSON_parse_answer w m = Some parsed ->
       pa_answer parsed = Some a -> a <> EmptyString ->
       answer = a /\ timestamps = default [] (pa_relevant_timestamps parsed)).
Proof.
  intros Hgw Hok. rewrite qa_run.
  rewrite (gateway_content_ok _ _ _ _ Hgw Hok), bind_mret. cbv zeta.
  destruct (parse_answer w (JS.or_str reply_content "")) as [answer ts] eqn:Ep.
  exists answer, ts. split; [reflexivity|].
  assert (Hparsed : forall m parsed a,
    JS.match_delimited "{" "}" (JS.or_str reply_content "") = Some m ->
    JSON_parse_answer w m = Some parsed ->
    pa_answer parsed = Some a -> a <> EmptyString ->
    answer = a /\ ts = default [] (pa_relevant_timestamps parsed)).
  { intros m parsed a Hm Hp Ha Hne. unfold parse_answer in Ep.
    rewrite Hm, Hp, Ha in Ep. destruct a; [congruence|].
    now injection Ep as <- <-. }
  unfold mbind, Eff_bind, save_history.
  destruct (db_error w InsertHistory); cbn;
    (split; [reflexivity|]); (split; [reflexivity|]);
    (split; [reflexivity|]); (split; [reflexivity|]); exact Hparsed.
Qed.
End QARun.

Lemma qa_video_not_found_witness :
  serve_video_qa chatty_world qa_request
    {| videos := []; video_segments := []; video_qa_history := [] |}
  = (json_response 500 (BodyError "Video not found"),
     {| videos := []; video_segments := []; video_qa_history := [] |}).
Proof.
  apply (qa_video_not_found chatty_world qa_request _
           "What happens in the video?" "v1" _ ltac:(discriminate) eq_refl
           eq_refl eq_refl eq_refl).
  right. intros v. discriminate.
Defined.

Lemma qa_gateway_failure_witness :
  serve_video_qa rate_limited_world qa_request library_db
  = (json_response 429 (BodyError "Rate limited. Please try again later."),
     library_db).
Proof.
  apply (qa_gateway_failure rate_limited_world qa_request _
           "What happens in the video?" "v1" ready_video library_db
           ltac:(discriminate) eq_refl eq_refl eq_refl eq_refl eq_refl eq_refl
           eq_refl 429 (GwContent None) eq_refl eq_refl).
Defined.

Lemma qa_answer_is_stored_witness :
  fst (serve_video_qa structured_world qa_request library_db)
    = json_response 200 (BodyAnswer "A dog walks." []) /\
  video_qa_history (snd (serve_video_qa structured_world qa_request library_db))
    = [ {| q_video_id := "v1"; q_question := "What happens in the video?";
           q_answer := "A dog walks."; q_relevant_timestamps := [] |} ].
Proof.
  destruct (qa_answer_is_stored structured_world qa_request _
              "What happens in the video?" "v1" ready_video library_db
              ltac:(discriminate) eq_refl eq_refl eq_refl eq_refl eq_refl
              eq_refl eq_refl 200 (Some structured_reply) eq_refl eq_refl)
    as (answer & ts & Hp & Hresp & _ & _ & Hhist & Hparsed).
  destruct (Hparsed structured_reply
              {| pa_answer := Some "A dog walks.";
                 pa_relevant_timestamps := Some [] |} "A dog walks."
              ltac:(vm_compute; reflexivity) ltac:(vm_compute; reflexivity)
              eq_refl ltac:(discriminate)) as [-> ->].
  split; [exact Hresp | exact Hhist].
Defined.

(** The shapes of a run of video-qa: nothing written, or one row of history
    written beside a 200 answer. *)
Lemma qa_effect_cases w req db :
  let (resp, db') := serve_video_qa w req db in
  db' = db \/
  exists record,
    db' = insert_history record db /\
    resp = json_response 200
             (BodyAnswer (q_answer record) (q_relevant_timestamps record)).
Proof.
  unfold serve_video_qa, serve.
  destruct (String.eqb (method req) "OPTIONS"); [now left|].
  destruct (payload req) as [msg|b]; [now left|].
  unfold video_qa.
  destruct (JS.or_null (qa_question b)) as [question|]; [|now left].
  destruct (JS.or_null (qa_videoId b)) as [videoId|]; [|now left].
  unfold mbind at 1. unfold Eff_bind at 1.
  unfold throw_if. destruct (JS.falsy_str (LOVABLE_API_KEY w)); [now left|].
  cbn [mret Eff_ret]. unfold mbind at 1. unfold Eff_bind at 1.
  assert (Hsel : exists o, select_video w videoId db = (o, db)).
  { unfold select_video.
    set (rows := List.filter (fun v => String.eqb (v_id v) videoId)
                   (videos db)).
    destruct (db_error w SelectVideo); destruct rows as [|? [|? ?]]; eauto. }
  destruct Hsel as [o ->]. destruct o as [video|r|e]; [|now left|now left].
  unfold mbind at 1. unfold Eff_bind at 1. unfold db_read.
  destruct (db_error w SelectVideoSegments); [now left|].
  unfold mbind at 1. unfold Eff_bind at 1.
  pose proof (read_only_gateway_content w true db) as Hro.
  destruct (gateway_content w true db) as [[c|r|e] db1];
    cbn in Hro; subst db1; [|now left|now left].
  cbv zeta. destruct (parse_answer w (JS.or_str c "")) as [answer ts].
  unfold mbind, Eff_bind, save_history.
  destruct (db_error w InsertHistory); cbn; [now left|].
  right. eexists. split; reflexivity.
Qed.

(** X27.  The handler video-qa writes history only.  Videos and segments are as they were
    after every request; the history is as it was, or longer by one row,
    and then the response is 200 with that row's answer and timestamps. *)
Theorem qa_writes_only_history (w : World) (req : Request QABody) (db : DB) :
  let (resp, db') := serve_video_qa w req db in
  videos db' = videos db /\
  video_segments db' = video_segments db /\
  (video_qa_history db' = video_qa_history db \/
   exists record,
     video_qa_history db' = (video_qa_history db ++ [record])%list /\
     resp = json_response 200
              (BodyAnswer (q_answer record) (q_relevant_timestamps record))).
Proof.
  pose proof (qa_effect_cases w req db) as H.
  destruct (serve_video_qa w req db) as [resp db'].
  destruct H as [->|(record & -> & ->)].
  - auto.
  - cbn. repeat split. right. eauto.
Qed.

(** ** analyze-video and the other handlers *)

Lemma find_updated_video videoId d l :
  (exists v, In v l /\ v_id v = videoId) ->
  exists v',
    List.find (fun v => String.eqb (v_id v) videoId)
      (videos (update_video videoId ready d
                 {| videos := l; video_segments := [];
                    video_qa_history := [] |})) = Some v' /\
    v_id v' = videoId /\ v_status v' = ready /\ v_duration_seconds v' = d.
Proof.
  intros (v & Hin & Hid). cbn. induction l as [|x l IH]; [destruct Hin|].
  cbn. destruct (String.eqb (v_id x) videoId) eqn:E.
  - cbn. rewrite E. eexists. split; [reflexivity|]. cbn.
    apply String.eqb_eq in E. auto.
  - rewrite E. apply IH. destruct Hin as [->|Hin]; [|exact Hin].
    apply String.eqb_neq in E. congruence.
Qed.

Section AnalyzeSuccess.
Variables (w : World) (req : Request AnalyzeBody) (b : AnalyzeBody).
Variables (videoId : string) (st : Z) (content : option string) (db : DB).
Hypothesis Hmethod : method req <> "OPTIONS".
Hypothesis Hbody : payload req = Json b.
Hypothesis HvideoId : JS.or_null (a_videoId b) = Some videoId.
Hypothesis HvideoUrl : JS.falsy_str (a_videoUrl b) = false.
Hypothesis Hkey : JS.falsy_str (LOVABLE_API_KEY w) = false.
Hypothesis Hgateway : gateway w = GwResponse st (GwContent content).
Hypothesis Hok : gw_ok st = true.
Hypothesis Hinsert : db_error w InsertSegments = None.
Hypothesis Hupdate : db_error w UpdateVideo = None.

Let segments := parse_segments w (a_title b) content.
Let records := segmentRecords w videoId segments.

Lemma analyze_success_db db0 :
  snd (serve_analyze_video w req db0)
  = update_video videoId ready (duration_seconds segments)
      (insert_segments records db0).
Proof.
  rewrite (analyze_success_state w req b videoId st content db0
             Hmethod Hbody HvideoId HvideoUrl Hkey Hgateway Hok Hinsert Hupdate).
  reflexivity.
Qed.

(** X28.  What analyze-video inserts, search-videos finds.  After a successful
    run for a video that exists, every inserted record is among the segments
    a search of that video ranks, joined to a video that is ready. *)
Theorem analyzed_segments_are_searchable :
  (exists v, In v (videos db) /\ v_id v = videoId) ->
  forall r, In r records ->
    exists j,
      In j (select_segments (Some videoId)
              (snd (serve_analyze_video w req db))) /\
      seg j = r /\ v_id (seg_videos j) = videoId /\
      v_status (seg_videos j) = ready.
Proof.
  intros Hv r Hr. rewrite analyze_success_db.
  destruct (find_updated_video videoId (duration_seconds segments) _ Hv)
    as (v' & Hfind & Hid & Hready & _).
  assert (Hrid : s_video_id r = videoId).
  { apply segmentRecords_In in Hr as (i & s & _ & H & _). exact H. }
  exists {| seg := r; seg_videos := v' |}. split; [|auto].
  apply select_segments_In. cbn [seg seg_videos]. split; [|split; [|split]].
  - cbn. apply in_or_app. now right.
  - rewrite Hrid. exact Hfind.
  - unfold is_ready. now rewrite Hready.
  - destruct (a_videoId b) as [[|c i]|]; try discriminate.
    cbn in HvideoId. injection HvideoId as <-. exact Hrid.
Qed.

(** X30.  After a successful run every video with the id is ready, and its
    duration is NULL exactly when the reply had no segment; otherwise it is
    at least 30 seconds past every timestamp the reply gave. *)
Theorem analyze_duration_covers (v : Video) :
  In v (videos (snd (serve_analyze_video w req db))) ->
  v_id v = videoId ->
  v_status v = ready /\
  (v_duration_seconds v = None <-> segments = []) /\
  forall s t, In s segments -> p_timestamp_seconds s = Some t ->
    exists d, v_duration_seconds v = Some d /\ t + 30 <= d.
Proof.
  rewrite analyze_success_db. intros Hin Hid.
  apply update_video_row in Hin as [(v0 & _ & _ & _ & Hs & Hd)|[_ Hne]];
    [|congruence].
  split; [exact Hs|]. rewrite Hd. unfold duration_seconds. split.
  - destruct segments; cbn; split; congruence.
  - intros s t Hs' Ht.
    destruct (JS.Math_max _) as [m|] eqn:E.
    + exists (m + 30). split; [reflexivity|].
      apply Math_max_spec in E as [_ Hub].
      specialize (Hub (JS.or_num (p_timestamp_seconds s) 0)).
      rewrite Ht in Hub.
      assert (JS.or_num (Some t) 0 = t) as Ht' by now destruct t.
      rewrite Ht' in Hub. enough (t <= m) by lia. apply Hub.
      apply in_map_iff. exists s. rewrite Ht, Ht'. auto.
    + destruct segments; [destruct Hs' | discriminate].
Qed.
End AnalyzeSuccess.

Lemma analyzed_segments_are_searchable_witness :
  Forall (fun r =>
            exists j,
              In j (select_segments (Some "v1")
                      (snd (serve_analyze_video prose_world analyze_request
                              sample_db))) /\
              seg j = r /\ v_status (seg_videos j) = ready)
    (segmentRecords prose_world "v1" (fallback_segments (Some "Demo"))).
Proof.
  apply List.Forall_forall. intros r Hr.
  destruct (analyzed_segments_are_searchable prose_world analyze_request _
              "v1" 200 _ sample_db ltac:(discriminate) eq_refl eq_refl eq_refl
              eq_refl eq_refl eq_refl eq_refl eq_refl
              (ex_intro _ sample_video (conj (or_introl eq_refl) eq_refl))
              r Hr) as (j & Hj & Hs & _ & Hready).
  exists j. auto.
Defined.

(** The records of two runs on the same parsed segments differ in the
    confidence score at most. *)
Lemma segmentRecords_without_confidence
    (w1 w2 : World) (videoId : string) (segments : list ParsedSegment) :
  without_confidence <$> segmentRecords w2 videoId segments
  = without_confidence <$> segmentRecords w1 videoId segments.
Proof.
  unfold segmentRecords. rewrite !fmap_imap. apply imap_ext.
  intros i s _. reflexivity.
Qed.

(** X29.  Nothing guards against a second analysis.  Two successful runs for
    the same video, each with its own gateway reply and its own random draws,
    leave the records of the first followed by the records of the second:
    nothing is replaced.  Each run answers 200 with the number of its own
    segments, and when both replies parse to the same segments the two
    batches agree in every column but confidence_score. *)
Theorem analyze_twice_duplicates
    (w1 w2 : World) (req : Request AnalyzeBody) (b : AnalyzeBody)
    (videoId : string) (st1 st2 : Z) (content1 content2 : option string)
    (db : DB) :
  method req <> "OPTIONS" ->
  payload req = Json b ->
  JS.or_null (a_videoId b) = Some videoId ->
  JS.falsy_str (a_videoUrl b) = false ->
  JS.falsy_str (LOVABLE_API_KEY w1) = false ->
  gateway w1 = GwResponse st1 (GwContent content1) ->
  gw_ok st1 = true ->
  db_error w1 InsertSegments = None ->
  db_error w1 UpdateVideo = None ->
  JS.falsy_str (LOVABLE_API_KEY w2) = false ->
  gateway w2 = GwResponse st2 (GwContent content2) ->
  gw_ok st2 = true ->
  db_error w2 InsertSegments = None ->
  db_error w2 UpdateVideo = None ->
  let segments1 := parse_segments w1 (a_title b) content1 in
  let segments2 := parse_segments w2 (a_title b) content2 in
  let records1 := segmentRecords w1 videoId segments1 in
  let records2 := segmentRecords w2 videoId segments2 in
  let (resp1, db1) := serve_analyze_video w1 req db in
  let (resp2, db2) := serve_analyze_video w2 req db1 in
  video_segments db2 = (video_segments db ++ records1 ++ records2)%list /\
  resp1 = json_response 200 (BodyAnalyzed (length segments1)) /\
  resp2 = json_response 200 (BodyAnalyzed (length segments2)) /\
  (segments2 = segments1 ->
   without_confidence <$> records2 = without_confidence <$> records1).
Proof.
  intros Hm Hb Hid Hurl Hk1 Hg1 Ho1 Hi1 Hu1 Hk2 Hg2 Ho2 Hi2 Hu2.
  cbv zeta.
  rewrite (analyze_success_state w1 req b videoId st1 content1 db
             Hm Hb Hid Hurl Hk1 Hg1 Ho1 Hi1 Hu1).
  cbv zeta.
  rewrite (analyze_success_state w2 req b videoId st2 content2 _
             Hm Hb Hid Hurl Hk2 Hg2 Ho2 Hi2 Hu2).
  cbv zeta. cbn [video_segments update_video insert_segments].
  assert (Hlen : forall w l, length (segmentRecords w videoId l) = length l)
    by (intros; apply length_imap).
  rewrite <- app_assoc, !Hlen. repeat split.
  intros ->. apply segmentRecords_without_confidence.
Qed.

Lemma analyze_twice_duplicates_witness :
  let w2 := redrawn_world prose_world (fun _ => (1 # 4)%Q) in
  let db2 := snd (serve_analyze_video w2 analyze_request
                    (snd (serve_analyze_video prose_world analyze_request
                            sample_db))) in
  video_segments db2
  = (segmentRecords prose_world "v1" (fallback_segments (Some "Demo")) ++
     segmentRecords w2 "v1" (fallback_segments (Some "Demo")))%list /\
  length (video_segments db2) = 8%nat.
Proof.
  cbv zeta.
  pose proof (analyze_twice_duplicates prose_world
                (redrawn_world prose_world (fun _ => (1 # 4)%Q))
                analyze_request _ "v1" 200 200 _ _ sample_db
                ltac:(discriminate) eq_refl eq_refl eq_refl
                eq_refl eq_refl eq_refl eq_refl eq_refl
                eq_refl eq_refl eq_refl eq_refl eq_refl) as H.
  cbv zeta in H.
  destruct (serve_analyze_video prose_world analyze_request sample_db)
    as [resp1 db1].
  cbn [snd].
  destruct (serve_analyze_video _ analyze_request db1) as [resp2 db2].
  cbn [snd]. destruct H as (H & _). rewrite H. split; reflexivity.
Defined.

Lemma analyze_duration_covers_witness :
  Forall (fun v => v_status v = ready /\
                   exists d, v_duration_seconds v = Some d /\ 120 + 30 <= d)
    (videos (snd (serve_analyze_video prose_world analyze_request sample_db))).
Proof.
  apply List.Forall_forall. intros v Hv.
  assert (Hid : v_id v = "v1").
  { revert Hv. vm_compute. intros [<-|[]]. reflexivity. }
  destruct (analyze_duration_covers prose_world analyze_request _ "v1" 200 _
              sample_db ltac:(discriminate) eq_refl eq_refl eq_refl eq_refl
              eq_refl eq_refl eq_refl eq_refl v Hv Hid) as (Hs & _ & Hd).
  split; [exact Hs|].
  apply (Hd {| p_timestamp_seconds := Some 120;
               p_description := Some "Summary and conclusion";
               p_ocr_text := Some "Summary";
               p_detected_objects := Some {[ "text_overlay" := 1 ]};
               p_transcript := Some "To wrap up, we covered the main points" |}
            120); [|reflexivity].
  right. right. right. left. reflexivity.
Defined.
